(** * fairpy: allocations and the min-sharing max-product facade

    A shallow embedding of
      - [allocations.py]: the [Allocation] container and [stringify_bundle];
      - [divisible/min_sharing_impl/FairMaxProductAllocationProblem.py]:
        the facade that derives thresholds from a max-product allocation.

    Python lists are Rocq lists and a call either returns a value or raises
    an exception.  The facade is written over any carrier of numbers; the
    feasibility program it hands to the solver is written over exact
    rationals, with the solver and the reference algorithm as parameters. *)

From Stdlib Require Import ZArith QArith Qabs Lqa DecimalString.
From Stdlib Require DecimalPos DecimalZ.
From stdpp Require Import base list strings sorting.

Local Open Scope string_scope.
Local Open Scope Z_scope.

(** ** Python runtime conventions *)

Module Py.

(** The exceptions that the embedded code can raise. *)
Inductive exn :=
| ValueError (msg : string)
| IndexError (msg : string)
| SolverError.

(** The outcome of a call: a returned value or a raised exception. *)
Inductive result (A : Type) :=
| Returned (a : A)
| Raised (e : exn).
Arguments Returned {A} a.
Arguments Raised {A} e.

Definition bind {A B} (r : result A) (k : A -> result B) : result B :=
  match r with
  | Returned a => k a
  | Raised e => Raised e
  end.

(** Indexing a Python list: a negative index counts from the end, an
    index below [-len(l)] or from [len(l)] on raises [IndexError]. *)
Definition list_getitem {X} (l : list X) (i : Z) : result X :=
  let n := Z.of_nat (length l) in
  let k := if i <? 0 then i + n else i in
  if (k <? 0) || (n <=? k) then Raised (IndexError "list index out of range")
  else match l !! Z.to_nat k with
       | Some x => Returned x
       | None => Raised (IndexError "list index out of range")
       end.

(** [sep.join(l)]. *)
Fixpoint join (sep : string) (l : list string) : string :=
  match l with
  | [] => ""
  | [s] => s
  | s :: l' => s ++ sep ++ join sep l'
  end.

(** The line feed written [\n] in the source. *)
Definition newline : string := String (Ascii.ascii_of_nat 10) "".

(** [str(n)] for an [int]. *)
Definition str_int (n : Z) : string := NilZero.string_of_int (Z.to_int n).

Section Sorted.
Context {A : Type} (lt : A -> A -> bool).

(** [sorted] is stable and only ever asks [x < y].  A new element is
    placed behind every element that is not greater than it, which is
    what the binary insertion of CPython's list sort does. *)
Fixpoint insort (l : list A) (x : A) : list A :=
  match l with
  | [] => [x]
  | y :: l' => if lt x y then x :: l else y :: insort l' x
  end.

Definition sorted (l : list A) : list A := fold_left insort l [].

(** [x <= y] as the sort sees it: not [y < x]. *)
Definition le_of (x y : A) : Prop := lt y x = false.
End Sorted.

End Py.

Import Py.

(** ** allocations.py *)

Module Allocations.

Section Stringify.
Context {A : Type} (lt : A -> A -> bool) (str : A -> string).

(** [stringify_bundle(bundle)]; [None] is the Python [None]. *)
Definition stringify_bundle (bundle : option (list A)) : string :=
  match bundle with
  | None => "None"
  | Some b => "{" ++ join "," (map str (sorted lt b)) ++ "}"
  end.
End Stringify.

Section Allocation.
Context {Agent Item Value : Type}.

Record Allocation := {
  num_of_agents : nat;
  agents : list Agent;
  bundles : list (option (list Item));
  values : list Value
}.

(** [Allocation.__init__].  The message is not an f-string in the
    source, so the braces are raised verbatim. *)
Definition __init__ (agents0 : list Agent) (bundles0 : list (option (list Item)))
    (values0 : list Value) : result Allocation :=
  let n := length agents0 in
  if negb (n =? length bundles0)%nat || negb (n =? length values0)%nat
  then Raised (ValueError
    "Numbers of agents, bundles and values must be identical, but they are not: {len(agents)}, {len(bundles)}, {len(values)}")
  else Returned {| num_of_agents := n; agents := agents0;
                   bundles := bundles0; values := values0 |}.

Definition get_bundle (self : Allocation) (agent_index : Z)
  : result (option (list Item)) :=
  list_getitem (bundles self) agent_index.

(** [Allocation.__getitem__]. *)
Definition __getitem__ (self : Allocation) (agent_index : Z)
  : result (option (list Item)) :=
  get_bundle self agent_index.

(** [Allocation.__repr__]: one line per agent, in the order of
    [self.agents]. *)
Context (lt : Item -> Item -> bool) (str_item : Item -> string)
        (str_agent : Agent -> string) (str_value : Value -> string).

Fixpoint repr_from (self : Allocation) (i_agent : nat) (rest : list Agent)
    (result0 : string) : result string :=
  match rest with
  | [] => Returned result0
  | agent :: rest' =>
      bind (list_getitem (bundles self) (Z.of_nat i_agent)) (fun agent_bundle =>
      bind (list_getitem (values self) (Z.of_nat i_agent)) (fun agent_value =>
      repr_from self (S i_agent) rest'
        (result0 ++ str_agent agent ++ "'s bundle: "
           ++ stringify_bundle lt str_item agent_bundle
           ++ ",  value: " ++ str_value agent_value ++ "."
           ++ newline)))
  end.

Definition __repr__ (self : Allocation) : result string :=
  repr_from self 0 (agents self) "".
End Allocation.
Arguments Allocation : clear implicits.

End Allocations.

Import Allocations.

(** ** Numbers

    The facade only stores, subtracts, multiplies and prints numbers, so it
    is written over any carrier with these operations.  The feasibility
    program compares numbers and is written over exact rationals. *)

Class Number (num : Type) := {
  literal : Q -> num;              (* the number a literal such as [0.01] denotes *)
  add : num -> num -> num;
  sub : num -> num -> num;
  mul : num -> num -> num;
  div : num -> num -> num;
  format : num -> string           (* ["{}".format(x)] *)
}.

(** Rendering of a rational with a finite decimal expansion: sign, integer
    part, a point, and the fractional digits without trailing zeros (at
    least one digit).  At most seventeen fractional digits are produced. *)
Fixpoint fraction_digits (fuel : nat) (r : Z) (d : Z) : string :=
  match fuel with
  | O => ""
  | S fuel' =>
      if (r =? 0)%Z then ""
      else str_int (10 * r / d) ++ fraction_digits fuel' ((10 * r) mod d) d
  end.

Definition format_decimal (q : Q) : string :=
  let n := Z.abs (Qnum q) in
  let d := Z.pos (Qden q) in
  let frac := fraction_digits 17 (n mod d) d in
  (if (Qnum q <? 0)%Z then "-" else "")
    ++ str_int (n / d) ++ "." ++ (if String.eqb frac "" then "0" else frac).

#[export] Instance Q_Number : Number Q := {
  literal := fun q => q;
  add := Qplus; sub := Qminus; mul := Qmult; div := Qdiv;
  format := format_decimal
}.

(** ** divisible/min_sharing_impl *)

Module MinSharing.

(** *** Matrices *)

Definition entry {X} (d : X) (m : list (list X)) (i j : nat) : X :=
  nth j (nth i m []) d.

(** Modelled from the spec: [ValuationMatrix] (fairpy.valuations) is an
    n_agents x n_items matrix; row i, column j is agent i's value for item
    j, and agents and items are the dense indices [0..n-1]. *)
Definition ValuationMatrix (num : Type) := list (list num).

Section ValuationMatrix.
Context {num : Type}.
Definition num_of_agents (v : ValuationMatrix num) : nat := length v.
Definition num_of_objects (v : ValuationMatrix num) : nat :=
  length (nth 0 v []).
Definition agents (v : ValuationMatrix num) : list nat :=
  seq 0 (num_of_agents v).
Definition objects (v : ValuationMatrix num) : list nat :=
  seq 0 (num_of_objects v).
End ValuationMatrix.

(** Modelled from the spec: an [AllocationMatrix] is an n_agents x n_items
    matrix of shares, and [utility_profile] gives each agent the
    value-weighted sum over the shares it receives. *)
Definition AllocationMatrix (num : Type) := list (list num).

Section Facade.
Context {num : Type} `{Number num}.

Definition utility (z : AllocationMatrix num) (v : ValuationMatrix num)
    (i : nat) : num :=
  fold_right add (literal 0)
    (map (fun j => mul (entry (literal 0) z i j) (entry (literal 0) v i j))
         (objects v)).

Definition utility_profile (z : AllocationMatrix num)
    (v : ValuationMatrix num) : list num :=
  map (utility z v) (agents v).

(** *** FairThresholdAllocationProblem *)

Record FairThresholdAllocationProblem := {
  valuation : ValuationMatrix num;
  thresholds : list num
}.

(** Modelled from the spec: [FairThresholdAllocationProblem.__init__]
    stores the valuations and the thresholds. *)
Definition threshold_init (valuations : ValuationMatrix num)
    (thresholds0 : list num) : FairThresholdAllocationProblem :=
  {| valuation := valuations; thresholds := thresholds0 |}.

(** *** FairMaxProductAllocationProblem *)

Record FairMaxProductAllocationProblem := {
  base :> FairThresholdAllocationProblem;
  tolerance : num
}.

(** What [__init__] does besides building the object: the call of the
    reference algorithm and the three [logger.info] records. *)
Inductive log_arg :=
| Matrix_arg (m : list (list num))
| Vector_arg (l : list num).

Inductive event :=
| Max_product_call (valuations : ValuationMatrix num)
| Info (msg : string) (args : list log_arg).

Definition is_max_product_call (e : event) : bool :=
  match e with Max_product_call _ => true | Info _ _ => false end.

(** The reference algorithm [max_product_allocation] (fairpy.divisible.
    max_product) is an external collaborator. *)
Context (max_product_allocation : ValuationMatrix num -> AllocationMatrix num).

Definition default_tolerance : num := literal (1 # 100).

(** [sum(valuations[i])]: Python's [sum] starts from [0]. *)
Definition py_sum (l : list num) : num := fold_left add l (literal 0).

(** [FairMaxProductAllocationProblem.__init__]. *)
Definition __init__ (valuations : list (list num)) (tolerance0 : num)
  : list event * FairMaxProductAllocationProblem :=
  let valuations : ValuationMatrix num := valuations in
  let mpa := max_product_allocation valuations in
  let mpa_utilities := utility_profile mpa valuations in
  let thresholds0 :=
    map (fun u => mul u (sub (literal 1) tolerance0)) mpa_utilities in
  ([ Max_product_call valuations;
     Info ("The max-product allocation is:" ++ newline ++ "%s," ++ newline
             ++ "with utility profile: %s")
          [Matrix_arg mpa; Vector_arg mpa_utilities];
     Info "The thresholds are: %s" [Vector_arg thresholds0];
     Info "The proportionality thresholds are: %s"
          [Vector_arg
             (map (fun i => div (py_sum (nth i valuations []))
                                (literal (inject_Z (Z.of_nat (num_of_agents valuations)))))
                  (agents valuations))] ],
   {| base := threshold_init valuations thresholds0;
      tolerance := tolerance0 |}).

(** [fairness_adjective]: the method returns a string and leaves the
    object as it is. *)
Definition fairness_adjective (self : FairMaxProductAllocationProblem)
  : string * FairMaxProductAllocationProblem :=
  (format (sub (literal 1) (tolerance self)) ++ "-max-product", self).
End Facade.
Arguments FairThresholdAllocationProblem : clear implicits.
Arguments FairMaxProductAllocationProblem : clear implicits.
Arguments event : clear implicits.


(** *** The feasibility oracle

    Modelled from the spec: [find_allocation_for_graph] lives in
    FairThresholdAllocationProblem.py, which is not part of the sources.
    The spec describes it as one call of a black-box solver on a linear
    feasibility program: one variable per permitted edge of the graph,
    every item's shares sum to 1, every share is at least 0, and every
    agent's weighted value is at least its threshold.  A reported optimum
    is returned as a matrix, a reported infeasible or unbounded program
    as [None], and an internal failure of the solver propagates. *)

Local Open Scope Q_scope.

(** A 0/1 matrix: [1] permits agent i a non-zero share of item j. *)
Definition ConsumptionGraph := list (list Z).

Definition permitted (g : ConsumptionGraph) (i j : nat) : bool :=
  negb (entry 0%Z g i j =? 0)%Z.

Definition Var : Type := nat * nat.
Definition LinExpr := list (Q * Var).

Inductive Constraint :=
| Equals (e : LinExpr) (b : Q)       (* e == b *)
| AtLeast (e : LinExpr) (b : Q).     (* e >= b *)

Record Program := {
  variables : list Var;
  constraints : list Constraint
}.

Inductive SolverStatus := Optimal | Infeasible | Unbounded | Solver_error.

Definition Solver := Program -> SolverStatus * (Var -> Q).

Definition Qsum (l : list Q) : Q := fold_right Qplus 0 l.
Definition Qprod (l : list Q) : Q := fold_right Qmult 1 l.

Definition eval (sol : Var -> Q) (e : LinExpr) : Q :=
  Qsum (map (fun t => fst t * sol (snd t)) e).

Definition edges_of_agent (g : ConsumptionGraph) (m : nat) (i : nat) : list Var :=
  map (fun j => (i, j)) (List.filter (fun j => permitted g i j) (seq 0 m)).

Definition edges_of_item (g : ConsumptionGraph) (n : nat) (j : nat) : list Var :=
  map (fun i => (i, j)) (List.filter (fun i => permitted g i j) (seq 0 n)).

Definition feasibility_program (v : ValuationMatrix Q) (th : list Q)
    (g : ConsumptionGraph) : Program :=
  let n := num_of_agents v in
  let m := num_of_objects v in
  let vars := concat (map (edges_of_agent g m) (seq 0 n)) in
  {| variables := vars;
     constraints :=
       map (fun j => Equals (map (fun x => (1, x)) (edges_of_item g n j)) 1)
           (seq 0 m)
       ++ map (fun x => AtLeast [(1, x)] 0) vars
       ++ map (fun i => AtLeast
                 (map (fun x => (entry 0 v (fst x) (snd x), x))
                      (edges_of_agent g m i))
                 (nth i th 0))
              (seq 0 n) |}.

(** The n x m matrix with entry [f i j] at row i, column j. *)
Definition mk_matrix {X} (n m : nat) (f : nat -> nat -> X) : list (list X) :=
  map (fun i => map (fun j => f i j) (seq 0 m)) (seq 0 n).

(** The matrix read back from the solver: the solved share on a permitted
    edge, 0 elsewhere. *)
Definition allocation_of (n m : nat) (g : ConsumptionGraph) (sol : Var -> Q)
  : AllocationMatrix Q :=
  mk_matrix n m (fun i j => if permitted g i j then sol (i, j) else 0).

Definition find_allocation_for_graph (solver : Solver)
    (self : FairThresholdAllocationProblem Q) (g : ConsumptionGraph)
  : result (option (AllocationMatrix Q)) :=
  let v := valuation self in
  match solver (feasibility_program v (thresholds self) g) with
  | (Optimal, sol) =>
      Returned (Some (allocation_of (num_of_agents v) (num_of_objects v) g sol))
  | (Infeasible, _) | (Unbounded, _) => Returned None
  | (Solver_error, _) => Raised SolverError
  end.

(** *** What is assumed of the collaborators *)

(** A constraint holds up to the solver's tolerance. *)
Definition holds (tol : Q) (sol : Var -> Q) (c : Constraint) : Prop :=
  match c with
  | Equals e b => Qabs (eval sol e - b) <= tol
  | AtLeast e b => b - tol <= eval sol e
  end.

(** A solver is sound up to [tol] when every solution it reports as
    optimal satisfies every constraint up to [tol]. *)
Definition solver_sound (solver : Solver) (tol : Q) : Prop :=
  forall P sol, solver P = (Optimal, sol) ->
    Forall (holds tol sol) (constraints P).

(** The solver answers [P] when it does not fail internally on it. *)
Definition solver_answers (solver : Solver) (P : Program) : Prop :=
  fst (solver P) <> Solver_error.

(** No assignment satisfies the program, even up to [tol]. *)
Definition infeasible (tol : Q) (P : Program) : Prop :=
  forall sol, ~ Forall (holds tol sol) (constraints P).

(** What all the items together are worth to agent i. *)
Definition total_value (v : ValuationMatrix Q) (i : nat) : Q :=
  Qsum (map (fun j => entry 0 v i j) (objects v)).

Definition column_sum (z : AllocationMatrix Q) (j : nat) : Q :=
  Qsum (map (fun row => nth j row 0) z).

(** An allocation of the items of [v]: an n x m matrix of non-negative
    shares in which every item is fully handed out. *)
Definition is_allocation (v : ValuationMatrix Q) (z : AllocationMatrix Q) : Prop :=
  length z = num_of_agents v
  /\ (forall i j, 0 <= entry 0 z i j)
  /\ (forall j, (j < num_of_objects v)%nat -> column_sum z j == 1).

(** Glossary of the spec: a max-product allocation maximises the product
    of the agents' utilities. *)
Definition is_max_product (v : ValuationMatrix Q) (z : AllocationMatrix Q) : Prop :=
  is_allocation v z
  /\ forall z', is_allocation v z' ->
       Qprod (utility_profile z' v) <= Qprod (utility_profile z v).

(** *** A solver to run the model with: it is handed a candidate
    solution and reports it as optimal exactly when it satisfies every
    constraint of the program. *)
Definition check (sol : Var -> Q) (c : Constraint) : bool :=
  match c with
  | Equals e b => Qeq_bool (eval sol e) b
  | AtLeast e b => Qle_bool b (eval sol e)
  end.

Definition checking_solver (candidate : Var -> Q) : Solver :=
  fun P => if forallb (check candidate) (constraints P)
           then (Optimal, candidate)
           else (Infeasible, fun _ => 0).

Definition shares_of (z : AllocationMatrix Q) : Var -> Q :=
  fun x => entry 0 z (fst x) (snd x).

(** *** A solver with a tolerance: it reports its candidate as optimal
    exactly when the candidate satisfies every constraint up to [tol]. *)
Definition check_within (tol : Q) (sol : Var -> Q) (c : Constraint) : bool :=
  match c with
  | Equals e b => Qle_bool (Qabs (eval sol e - b)) tol
  | AtLeast e b => Qle_bool (b - tol) (eval sol e)
  end.

Definition tolerant_solver (tol : Q) (candidate : Var -> Q) : Solver :=
  fun P => if forallb (check_within tol candidate) (constraints P)
           then (Optimal, candidate)
           else (Infeasible, fun _ => 0).

End MinSharing.

Import MinSharing.

(** ** The fixtures of the doctests *)

Module Scenario.
Local Open Scope Q_scope.

Definition v1 : ValuationMatrix Q := [[1; 2; 3; 4]; [4; 5; 6; 5]; [7; 8; 9; 6]].

(** The max-product allocation of [v1] (the market equilibrium with
    prices 70/123, 80/123, 96/123 and 1). *)
Definition mpa1 : AllocationMatrix Q :=
  [[0; 0; 0; 1]; [0; 27 # 80; 1; 0]; [1; 53 # 80; 0; 0]].

Definition g_infeasible : ConsumptionGraph :=
  [[0; 0; 0; 1]; [1; 1; 1; 1]; [0; 0; 0; 1]]%Z.

Definition g_feasible : ConsumptionGraph :=
  [[0; 0; 0; 1]; [0; 1; 1; 1]; [1; 1; 0; 0]]%Z.

Definition a_feasible : AllocationMatrix Q :=
  [[0; 0; 0; 99 # 100]; [0; 33 # 100; 1; 1 # 100]; [1; 67 # 100; 0; 0]].

(** Another solution of the program of [g_feasible]. *)
Definition a_alternative : AllocationMatrix Q :=
  [[0; 0; 0; 1]; [0; 34 # 100; 1; 0]; [1; 66 # 100; 0; 0]].

(** The first feasible graph of the doctest, with the matrix that the
    doctest prints for it. *)
Definition g_printed : ConsumptionGraph :=
  [[0; 0; 0; 1]; [0; 1; 1; 1]; [1; 1; 0; 1]]%Z.

Definition a_printed : AllocationMatrix Q :=
  [[0; 0; 0; 99 # 100]; [0; 34 # 100; 1; 0]; [1; 66 # 100; 0; 0]].

(** The six graphs on which the doctest prints [None]. *)
Definition none_graphs : list ConsumptionGraph :=
  [ [[0; 0; 0; 1]; [1; 1; 1; 1]; [0; 0; 0; 1]];
    [[0; 0; 0; 1]; [1; 1; 1; 1]; [1; 0; 0; 1]];
    [[0; 0; 0; 1]; [0; 1; 1; 1]; [1; 0; 0; 1]];
    [[0; 0; 0; 1]; [0; 0; 1; 1]; [1; 1; 0; 1]];
    [[0; 0; 0; 1]; [0; 0; 1; 1]; [1; 1; 1; 1]];
    [[0; 0; 0; 1]; [0; 1; 1; 1]; [1; 0; 0; 0]] ]%Z.

Definition problem1 : FairMaxProductAllocationProblem Q :=
  snd (__init__ (fun _ => mpa1) v1 default_tolerance).

(** The valuations with exact zeros. *)
Definition v2 : ValuationMatrix Q := [[465; 0; 535]; [0; 0; 1000]].

(** A max-product allocation of [v2] (prices 93/100, 0 and 107/100). *)
Definition mpa2 : AllocationMatrix Q := [[1; 1; 7 # 107]; [0; 0; 100 # 107]].

Definition g2 : ConsumptionGraph := [[1; 1; 1]; [0; 0; 1]]%Z.

Definition b_feasible : AllocationMatrix Q := [[1; 1; 7 # 100]; [0; 0; 93 # 100]].

Definition b_alternative : AllocationMatrix Q := [[1; 1; 6 # 100]; [0; 0; 94 # 100]].

Definition problem2 : FairMaxProductAllocationProblem Q :=
  snd (__init__ (fun _ => mpa2) v2 default_tolerance).
End Scenario.

(** ** Reference renderings and readings

    What the later statements compare the code with. *)

Module Reference.

Section Lines.
Context {Agent Item Value : Type}.
Context (lt : Item -> Item -> bool) (str_item : Item -> string)
        (str_agent : Agent -> string) (str_value : Value -> string).

(** The line that [__repr__] writes for one agent. *)
Definition agent_line (agent : Agent) (bundle : option (list Item))
    (value : Value) : string :=
  str_agent agent ++ "'s bundle: " ++ stringify_bundle lt str_item bundle
    ++ ",  value: " ++ str_value value ++ "." ++ newline.

(** The lines of the agents, in order, one after the other. *)
Fixpoint agent_lines (ags : list Agent) (bs : list (option (list Item)))
    (vs : list Value) : string :=
  match ags, bs, vs with
  | a :: ags', b :: bs', v :: vs' => agent_line a b v ++ agent_lines ags' bs' vs'
  | _, _, _ => ""
  end.
End Lines.

(** The characters of a string, and the separator of [stringify_bundle]. *)
Definition chars (s : string) : list Ascii.ascii := String.list_ascii_of_string s.
Definition comma : Ascii.ascii := Ascii.ascii_of_nat 44.

(** A text is clean when it is not empty and holds no comma. *)
Definition clean (s : string) : Prop := s <> "" /\ comma ∉ chars s.

(** The list that [__init__] logs as the proportionality thresholds. *)
Definition proportionality_thresholds {num : Type} `{Number num}
    (valuations : ValuationMatrix num) : list num :=
  map (fun i => div (py_sum (nth i valuations []))
                    (literal (inject_Z (Z.of_nat (num_of_agents valuations)))))
      (agents valuations).

(** The graph [g] permits every edge on which [z] gives a share. *)
Definition supports (g : ConsumptionGraph) (z : AllocationMatrix Q) : Prop :=
  forall i j, permitted g i j = true \/ (entry 0 z i j == 0)%Q.

(** The two feasible graphs of the doctest on [v1], each with the matrix
    that the doctest prints for it, and the one on [v2]. *)
Definition feasible_doctests : list (ConsumptionGraph * AllocationMatrix Q) :=
  [ ([[0; 0; 0; 1]; [0; 1; 1; 1]; [1; 1; 0; 1]]%Z,
     [[0; 0; 0; 99 # 100]; [0; 34 # 100; 1; 0]; [1; 66 # 100; 0; 0]]%Q);
    ([[0; 0; 0; 1]; [0; 1; 1; 1]; [1; 1; 0; 0]]%Z,
     [[0; 0; 0; 99 # 100]; [0; 33 # 100; 1; 1 # 100]; [1; 67 # 100; 0; 0]]%Q) ].

Definition delicate_doctest : ConsumptionGraph * AllocationMatrix Q :=
  ([[1; 1; 1]; [0; 0; 1]]%Z, [[1; 1; 7 # 100]; [0; 0; 93 # 100]]%Q).

(** Two matrices differ by at most [eps] in each of the first n x m
    entries. *)
Definition close (eps : Q) (n m : nat) (z z' : AllocationMatrix Q) : Prop :=
  forall i j, (i < n)%nat -> (j < m)%nat ->
    (Qabs (entry 0 z i j - entry 0 z' i j) <= eps)%Q.

End Reference.

Import Reference.

(** * Properties *)

(** ** allocations.py *)

Example stringify_ints :
  stringify_bundle Z.ltb str_int (Some [2; 1]) = "{1,2}".
Proof. reflexivity. Qed.

Example stringify_chars :
  stringify_bundle String.ltb id (Some ["y"; "x"]) = "{x,y}"
  /\ stringify_bundle String.ltb id (Some ["x"; "y"]) = "{x,y}".
Proof. split; reflexivity. Qed.

Example allocation_doctest :
  bind (Allocations.__init__ [0; 1; 2] [Some [3; 6]; None; Some [2; 5]] [9; 0; 7])
       (__repr__ Z.ltb str_int str_int str_int)
  = Returned ("0's bundle: {3,6},  value: 9." ++ newline
           ++ "1's bundle: None,  value: 0." ++ newline
           ++ "2's bundle: {2,5},  value: 7." ++ newline).
Proof. reflexivity. Qed.

Section SortedFacts.
Context {A : Type} (lt : A -> A -> bool).
Hypothesis lt_irrefl : forall x, lt x x = false.
Hypothesis lt_trans : forall x y z, lt x y = true -> lt y z = true -> lt x z = true.
Hypothesis lt_total : forall x y, lt x y = false -> lt y x = false -> x = y.

Lemma lt_asym x y : lt x y = true -> lt y x = false.
Proof.
  intros Hxy. destruct (lt y x) eqn:Hyx; [|done].
  by rewrite <- (lt_irrefl x), (lt_trans x y x).
Qed.

#[local] Instance le_of_trans : Transitive (le_of lt).
Proof.
  intros x y z Hxy Hyz. unfold le_of in *.
  destruct (lt z x) eqn:Hzx; [|done].
  destruct (lt x y) eqn:Hxy'.
  - by rewrite (lt_trans z x y) in Hyz.
  - rewrite (lt_total x y) in Hzx by done. congruence.
Qed.

#[local] Instance le_of_antisym : AntiSymm (=) (le_of lt).
Proof. intros x y Hxy Hyx. by apply lt_total. Qed.

Lemma insort_perm l x : insort lt l x ≡ₚ x :: l.
Proof.
  induction l as [|y l IH]; simpl; [done|].
  destruct (lt x y); [done|]. rewrite IH. apply Permutation_swap.
Qed.

Lemma sorted_perm l : sorted lt l ≡ₚ l.
Proof.
  unfold sorted. enough (forall acc, fold_left (insort lt) l acc ≡ₚ acc ++ l) as Hgen
    by apply (Hgen []).
  induction l as [|x l IH]; intros acc; simpl.
  - by rewrite app_nil_r.
  - rewrite IH, insort_perm. by rewrite <- Permutation_middle.
Qed.

Lemma insort_hd a l x :
  le_of lt a x -> HdRel (le_of lt) a l -> HdRel (le_of lt) a (insort lt l x).
Proof.
  intros Hax Hal. destruct l as [|y l]; simpl; [by constructor|].
  destruct (lt x y); constructor; [done|]. by inversion Hal.
Qed.

Lemma insort_sorted l x : Sorted (le_of lt) l -> Sorted (le_of lt) (insort lt l x).
Proof.
  induction 1 as [|y l Hl IH Hhd]; simpl.
  - by repeat constructor.
  - destruct (lt x y) eqn:Hxy.
    + constructor; [by constructor|]. constructor. by apply lt_asym.
    + constructor; [done|]. by apply insort_hd.
Qed.

Lemma sorted_sorted l : Sorted (le_of lt) (sorted lt l).
Proof.
  unfold sorted.
  enough (forall acc, Sorted (le_of lt) acc ->
                      Sorted (le_of lt) (fold_left (insort lt) l acc))
    as Hgen by (apply Hgen; constructor).
  induction l as [|x l IH]; intros acc Hacc; simpl; [done|].
  apply IH. by apply insort_sorted.
Qed.

Lemma sorted_of_perm l1 l2 : l1 ≡ₚ l2 -> sorted lt l1 = sorted lt l2.
Proof.
  intros Hp. apply (Sorted_unique (le_of lt)); try apply sorted_sorted.
  by rewrite !sorted_perm.
Qed.
End SortedFacts.

(** Reading a list at an index that is in range. *)
Lemma list_getitem_in_range {X} (l : list X) (i : nat) (x : X) :
  l !! i = Some x -> list_getitem l (Z.of_nat i) = Returned x.
Proof.
  intros Hi. pose proof (lookup_lt_Some _ _ _ Hi) as Hlt. unfold list_getitem.
  destruct (Z.of_nat i <? 0)%Z eqn:Hneg; [lia|].
  rewrite Hneg; simpl.
  destruct (Z.of_nat (length l) <=? Z.of_nat i)%Z eqn:Hge; [lia|].
  by rewrite Nat2Z.id, Hi.
Qed.

(** C9: [Allocation.__init__] raises [ValueError] and builds nothing when
    the three lists do not have one common length; otherwise it stores the
    three lists as they are with [num_of_agents = len(agents)], and both
    [get_bundle] and the indexing operator read the stored list of bundles:
    at every index in range they give the bundle stored at that index. *)
Theorem allocation_init_contract {Agent Item Value : Type}
    (agents0 : list Agent) (bundles0 : list (option (list Item)))
    (values0 : list Value) :
  (length agents0 <> length bundles0 \/ length agents0 <> length values0 ->
     exists msg, Allocations.__init__ agents0 bundles0 values0 = Raised (ValueError msg))
  /\ (length agents0 = length bundles0 -> length agents0 = length values0 ->
     exists self, Allocations.__init__ agents0 bundles0 values0 = Returned self
       /\ Allocations.agents self = agents0
       /\ Allocations.bundles self = bundles0
       /\ Allocations.values self = values0
       /\ Allocations.num_of_agents self = length agents0
       /\ (forall i : Z, get_bundle self i = list_getitem bundles0 i
                         /\ __getitem__ self i = list_getitem bundles0 i)
       /\ forall (i : nat) b, bundles0 !! i = Some b ->
            get_bundle self (Z.of_nat i) = Returned b
            /\ __getitem__ self (Z.of_nat i) = Returned b).
Proof.
  unfold Allocations.__init__. split.
  - intros Hne.
    destruct (length agents0 =? length bundles0)%nat eqn:Hb;
      [destruct (length agents0 =? length values0)%nat eqn:Hv|]; simpl; eauto.
    apply Nat.eqb_eq in Hb, Hv. destruct Hne; congruence.
  - intros Hb Hv.
    rewrite (proj2 (Nat.eqb_eq _ _) Hb), (proj2 (Nat.eqb_eq _ _) Hv). simpl.
    eexists; repeat split; try reflexivity.
    all: unfold __getitem__, get_bundle; simpl; by apply list_getitem_in_range.
Qed.

Lemma allocation_init_contract_witness :
  exists self, Allocations.__init__ [0; 1; 2] [Some [3; 6]; None; Some [2; 5]] [9; 0; 7]
                 = Returned self
    /\ get_bundle self 2 = Returned (Some [2; 5])
    /\ __getitem__ self 1 = Returned None.
Proof.
  destruct (allocation_init_contract [0; 1; 2] [Some [3; 6]; None; Some [2; 5]] [9; 0; 7])
    as [_ Hok].
  destruct (Hok eq_refl eq_refl) as (self & Hinit & _ & _ & _ & _ & _ & Hget).
  exists self. split; [exact Hinit|]. split.
  - exact (proj1 (Hget 2%nat (Some [2; 5]) eq_refl)).
  - exact (proj2 (Hget 1%nat None eq_refl)).
Defined.

(** Unequal lengths: the constructor raises. *)
Example allocation_init_mismatch :
  exists msg, Allocations.__init__ [0; 1] [Some [3]; None; Some [2]] [9; 0] = Raised (ValueError msg).
Proof. eexists; reflexivity. Qed.

(** C10: [stringify_bundle(None)] is ["None"]; a bundle is rendered as its
    sorted elements between braces, and when [<] orders the elements
    totally, two bundles that are permutations of each other, and so two
    duplicate-free bundles with the same set of elements, are rendered as
    the same string. *)
Theorem stringify_bundle_order_independent {A : Type}
    (lt : A -> A -> bool) (str : A -> string)
    (lt_irrefl : forall x, lt x x = false)
    (lt_trans : forall x y z, lt x y = true -> lt y z = true -> lt x z = true)
    (lt_total : forall x y, lt x y = false -> lt y x = false -> x = y) :
  stringify_bundle lt str None = "None"
  /\ (forall b, stringify_bundle lt str (Some b)
                = "{" ++ join "," (map str (sorted lt b)) ++ "}"
                /\ Sorted (le_of lt) (sorted lt b) /\ sorted lt b ≡ₚ b)
  /\ (forall b1 b2, b1 ≡ₚ b2 ->
        stringify_bundle lt str (Some b1) = stringify_bundle lt str (Some b2))
  /\ (forall b1 b2, NoDup b1 -> NoDup b2 -> (forall x, x ∈ b1 <-> x ∈ b2) ->
        stringify_bundle lt str (Some b1) = stringify_bundle lt str (Some b2)).
Proof.
  split; [done|]. split; [|split].
  - intros b. split; [done|]. split.
    + by apply sorted_sorted.
    + apply sorted_perm.
  - intros b1 b2 Hp. simpl. by rewrite (sorted_of_perm lt lt_irrefl lt_trans lt_total b1 b2).
  - intros b1 b2 Hd1 Hd2 Hsame. simpl.
    rewrite (sorted_of_perm lt lt_irrefl lt_trans lt_total b1 b2); [done|].
    by apply NoDup_Permutation.
Qed.

Lemma Zltb_total x y : (x <? y)%Z = false -> (y <? x)%Z = false -> x = y.
Proof. lia. Qed.

Lemma Zltb_trans x y z : (x <? y)%Z = true -> (y <? z)%Z = true -> (x <? z)%Z = true.
Proof. lia. Qed.

Lemma stringify_bundle_order_independent_witness :
  stringify_bundle Z.ltb str_int (Some [6; 3; 5]) = "{3,5,6}"
  /\ stringify_bundle Z.ltb str_int (Some [5; 6; 3]) = "{3,5,6}".
Proof.
  pose proof (stringify_bundle_order_independent Z.ltb str_int
                Z.ltb_irrefl Zltb_trans Zltb_total) as (_ & _ & Hperm & _).
  split; [reflexivity|].
  rewrite <- (Hperm [6; 3; 5] [5; 6; 3]); [reflexivity|].
  apply (Permutation_app_comm [6; 3] [5]).
Defined.

(** The rendering tells apart two bundles with the same set of elements
    when one of them repeats an element. *)
Lemma stringify_bundle_not_set_determined :
  ~ (forall b1 b2 : list Z, (forall x, x ∈ b1 <-> x ∈ b2) ->
       stringify_bundle Z.ltb str_int (Some b1) = stringify_bundle Z.ltb str_int (Some b2)).
Proof.
  intros Hset.
  assert (forall x : Z, x ∈ [1; 1] <-> x ∈ [1]) as Hsame
    by (intros x; rewrite !elem_of_cons; tauto).
  specialize (Hset [1; 1] [1] Hsame). vm_compute in Hset. discriminate Hset.
Qed.

(** ** The min-sharing facade *)

Local Open Scope Q_scope.

(** *** Sums and matrices *)

Lemma Qsum_ext {X} (f g : X -> Q) (l : list X) :
  (forall x, x ∈ l -> f x == g x) -> Qsum (map f l) == Qsum (map g l).
Proof.
  induction l as [|x l IH]; intros Hfg; simpl; [reflexivity|].
  rewrite (Hfg x) by apply list_elem_of_here.
  rewrite IH; [reflexivity|]. intros y Hy. apply Hfg. by apply list_elem_of_further.
Qed.

Lemma Qsum_filter {X} (p : X -> bool) (f : X -> Q) (l : list X) :
  Qsum (map f (List.filter p l))
  == Qsum (map (fun x => if p x then f x else 0) l).
Proof.
  induction l as [|x l IH]; simpl; [reflexivity|].
  destruct (p x); simpl; rewrite IH; ring.
Qed.

Lemma nth_map_seq {X} (f : nat -> X) (d : X) (m j : nat) :
  nth j (map f (seq 0 m)) d = if (j <? m)%nat then f j else d.
Proof.
  rewrite nth_lookup, list_lookup_fmap.
  destruct (j <? m)%nat eqn:Hj.
  - apply Nat.ltb_lt in Hj. by rewrite lookup_seq_lt.
  - apply Nat.ltb_ge in Hj. by rewrite lookup_seq_ge.
Qed.

Lemma entry_mk_matrix {X} (d : X) n m (f : nat -> nat -> X) i j :
  entry d (mk_matrix n m f) i j
  = if (i <? n)%nat && (j <? m)%nat then f i j else d.
Proof.
  unfold entry, mk_matrix. rewrite nth_map_seq.
  destruct (i <? n)%nat; simpl.
  - by rewrite nth_map_seq.
  - by destruct j.
Qed.

Lemma entry_allocation_of n m g sol i j :
  entry 0 (allocation_of n m g sol) i j
  = if (i <? n)%nat && (j <? m)%nat && permitted g i j then sol (i, j) else 0.
Proof.
  unfold allocation_of. rewrite entry_mk_matrix.
  destruct ((i <? n)%nat && (j <? m)%nat); simpl; [done|].
  by destruct (permitted g i j).
Qed.

Lemma column_sum_allocation_of n m g sol j :
  (j < m)%nat ->
  column_sum (allocation_of n m g sol) j
  == eval sol (map (fun x => (1, x)) (edges_of_item g n j)).
Proof.
  intros Hj. unfold column_sum, allocation_of, mk_matrix, eval, edges_of_item.
  rewrite !map_map. simpl.
  rewrite (Qsum_filter (fun i => permitted g i j) (fun i => 1 * sol (i, j))).
  apply Qsum_ext. intros i _. rewrite nth_map_seq.
  apply Nat.ltb_lt in Hj. rewrite Hj. destruct (permitted g i j); ring.
Qed.

Lemma utility_allocation_of (v : ValuationMatrix Q) g sol i :
  (i < num_of_agents v)%nat ->
  utility (allocation_of (num_of_agents v) (num_of_objects v) g sol) v i
  == eval sol (map (fun x => (entry 0 v (fst x) (snd x), x))
                   (edges_of_agent g (num_of_objects v) i)).
Proof.
  intros Hi. unfold utility, eval, edges_of_agent, objects. simpl.
  change (fold_right Qplus 0) with Qsum.
  rewrite !map_map. simpl.
  rewrite (Qsum_filter (fun j => permitted g i j)
             (fun j => entry 0 v i j * sol (i, j))).
  apply Qsum_ext. intros j Hj. apply elem_of_seq in Hj.
  rewrite entry_allocation_of.
  apply Nat.ltb_lt in Hi. rewrite Hi.
  destruct Hj as [_ Hj]. apply Nat.ltb_lt in Hj. simpl in Hj. rewrite Hj. simpl.
  destruct (permitted g i j); ring.
Qed.

(** *** What a solution of the feasibility program satisfies *)

Section Program.
Context (v : ValuationMatrix Q) (th : list Q) (g : ConsumptionGraph).
Context (tol : Q) (sol : Var -> Q).
Hypothesis solves :
  Forall (holds tol sol) (constraints (feasibility_program v th g)).

Lemma program_columns j :
  (j < num_of_objects v)%nat ->
  Qabs (eval sol (map (fun x => (1, x)) (edges_of_item g (num_of_agents v) j)) - 1)
    <= tol.
Proof.
  intros Hj. pose proof solves as Hall.
  unfold feasibility_program in Hall. simpl in Hall.
  apply Forall_app in Hall as [Hcols _].
  rewrite Forall_forall in Hcols.
  apply (Hcols (Equals _ 1)). apply list_elem_of_fmap.
  exists j. split; [done|]. apply elem_of_seq. lia.
Qed.

Lemma program_thresholds i :
  (i < num_of_agents v)%nat ->
  nth i th 0 - tol
  <= eval sol (map (fun x => (entry 0 v (fst x) (snd x), x))
                   (edges_of_agent g (num_of_objects v) i)).
Proof.
  intros Hi. pose proof solves as Hall.
  unfold feasibility_program in Hall. simpl in Hall.
  apply Forall_app in Hall as [_ Hall]. apply Forall_app in Hall as [_ Hth].
  rewrite Forall_forall in Hth.
  apply (Hth (AtLeast _ _)). apply list_elem_of_fmap.
  exists i. split; [done|]. apply elem_of_seq. lia.
Qed.

Lemma program_shares i j :
  (i < num_of_agents v)%nat -> (j < num_of_objects v)%nat ->
  permitted g i j = true -> - tol <= sol (i, j).
Proof.
  intros Hi Hj Hp. pose proof solves as Hall.
  unfold feasibility_program in Hall. simpl in Hall.
  apply Forall_app in Hall as [_ Hall]. apply Forall_app in Hall as [Hpos _].
  rewrite Forall_forall in Hpos.
  assert (holds tol sol (AtLeast [(1, (i, j))] 0)) as Hh.
  { apply Hpos. apply list_elem_of_fmap. exists (i, j). split; [done|].
    apply list_elem_of_In, in_concat.
    exists (edges_of_agent g (num_of_objects v) i).
    rewrite <- !list_elem_of_In. split.
    - apply list_elem_of_fmap. exists i. split; [done|]. apply elem_of_seq. lia.
    - unfold edges_of_agent. apply list_elem_of_fmap. exists j. split; [done|].
      apply list_elem_of_In, List.filter_In. split; [|done].
      apply in_seq. lia. }
  simpl in Hh. unfold eval in Hh. simpl in Hh. lra.
Qed.
End Program.

(** *** The outcomes of the oracle *)

Lemma find_allocation_optimal solver (self : FairThresholdAllocationProblem Q) g z :
  find_allocation_for_graph solver self g = Returned (Some z) ->
  exists sol,
    solver (feasibility_program (valuation self) (thresholds self) g) = (Optimal, sol)
    /\ z = allocation_of (num_of_agents (valuation self))
                         (num_of_objects (valuation self)) g sol.
Proof.
  unfold find_allocation_for_graph.
  destruct (solver _) as [[] sol]; intros Hz; try discriminate.
  exists sol. split; [done|]. congruence.
Qed.

Lemma find_allocation_infeasible solver tol (self : FairThresholdAllocationProblem Q) g :
  solver_sound solver tol ->
  infeasible tol (feasibility_program (valuation self) (thresholds self) g) ->
  solver_answers solver (feasibility_program (valuation self) (thresholds self) g) ->
  find_allocation_for_graph solver self g = Returned None.
Proof.
  unfold find_allocation_for_graph, solver_answers. intros Hsound Hinf Hans.
  destruct (solver _) as [[] sol] eqn:Hsol; try done.
  destruct (Hinf sol). by apply Hsound.
Qed.

Lemma checking_solver_sound candidate tol :
  0 <= tol -> solver_sound (checking_solver candidate) tol.
Proof.
  intros Htol P sol. unfold checking_solver.
  destruct (forallb _ _) eqn:Hall; [|discriminate].
  intros [= <-]. rewrite forallb_forall in Hall.
  apply Forall_forall. intros c Hc. apply list_elem_of_In, Hall in Hc.
  destruct c as [e b|e b]; cbn [holds check] in *.
  - apply Qeq_bool_iff in Hc. apply (proj2 (Qabs_Qle_condition _ _)). split; lra.
  - apply Qle_bool_iff in Hc. lra.
Qed.

Lemma checking_solver_answers candidate P :
  solver_answers (checking_solver candidate) P.
Proof. unfold solver_answers, checking_solver. by destruct (forallb _ _). Qed.

Lemma tolerant_solver_sound candidate tol :
  solver_sound (tolerant_solver tol candidate) tol.
Proof.
  intros P sol. unfold tolerant_solver.
  destruct (forallb _ _) eqn:Hall; [|discriminate].
  intros [= <-]. rewrite forallb_forall in Hall.
  apply Forall_forall. intros c Hc. apply list_elem_of_In, Hall in Hc.
  destruct c as [e b|e b]; cbn [holds check_within] in *;
    by apply Qle_bool_iff in Hc.
Qed.


(** C4: a matrix returned by [find_allocation_for_graph] on the graph [g]
    is exactly 0 at every entry where [g] is 0. *)
Theorem graph_consistency (solver : Solver)
    (self : FairThresholdAllocationProblem Q) (g : ConsumptionGraph)
    (z : AllocationMatrix Q) :
  find_allocation_for_graph solver self g = Returned (Some z) ->
  forall i j, entry 0%Z g i j = 0%Z -> entry 0 z i j = 0.
Proof.
  intros Hz i j Hg.
  destruct (find_allocation_optimal solver self g z Hz) as (sol & _ & ->).
  rewrite entry_allocation_of. unfold permitted. rewrite Hg. simpl.
  by rewrite andb_false_r.
Qed.

(** C8: in a matrix returned by [find_allocation_for_graph], every agent's
    utility is at least its threshold minus the solver's tolerance. *)
Theorem threshold_satisfaction (solver : Solver) (tol : Q)
    (self : FairThresholdAllocationProblem Q) (g : ConsumptionGraph)
    (z : AllocationMatrix Q) :
  solver_sound solver tol ->
  find_allocation_for_graph solver self g = Returned (Some z) ->
  forall i, (i < num_of_agents (valuation self))%nat ->
    nth i (thresholds self) 0 - tol <= nth i (utility_profile z (valuation self)) 0.
Proof.
  intros Hsound Hz i Hi.
  destruct (find_allocation_optimal solver self g z Hz) as (sol & Hsol & ->).
  unfold utility_profile, agents. rewrite nth_map_seq.
  rewrite (proj2 (Nat.ltb_lt _ _) Hi).
  rewrite utility_allocation_of by done.
  exact (program_thresholds _ _ _ _ _ (Hsound _ _ Hsol) i Hi).
Qed.

(** *** Sums and products over the agents *)

Lemma Qsum_scale {X} (c : Q) (f : X -> Q) (l : list X) :
  Qsum (map (fun x => c * f x) l) == c * Qsum (map f l).
Proof. induction l as [|x l IH]; simpl; [ring|]. rewrite IH. ring. Qed.

Lemma Qsum_plus {X} (f g : X -> Q) (l : list X) :
  Qsum (map (fun x => f x + g x) l) == Qsum (map f l) + Qsum (map g l).
Proof. induction l as [|x l IH]; simpl; [ring|]. rewrite IH. ring. Qed.

Lemma Qsum_nonneg {X} (f : X -> Q) (l : list X) :
  (forall x, x ∈ l -> 0 <= f x) -> 0 <= Qsum (map f l).
Proof.
  induction l as [|x l IH]; intros Hf; simpl; [lra|].
  pose proof (Hf x (list_elem_of_here _ _)).
  assert (0 <= Qsum (map f l)) by (apply IH; intros y Hy; apply Hf; by constructor).
  lra.
Qed.

Lemma Qsum_const {X} (c : Q) (l : list X) :
  Qsum (map (fun _ => c) l) == inject_Z (Z.of_nat (length l)) * c.
Proof.
  induction l as [|x l IH]; simpl length; simpl map; simpl Qsum; [ring|].
  rewrite IH, Nat2Z.inj_succ. unfold Z.succ. rewrite inject_Z_plus. ring.
Qed.

Lemma Qsum_indicator (t : Q) (i s n : nat) :
  (s <= i < s + n)%nat ->
  Qsum (map (fun k => if (k =? i)%nat then t else 0) (seq s n)) == t.
Proof.
  revert s. induction n as [|n IH]; intros s Hi; [lia|]. simpl.
  destruct (s =? i)%nat eqn:Hs.
  - rewrite (Qsum_ext _ (fun _ => 0)).
    + rewrite Qsum_const. ring.
    + intros k Hk. apply elem_of_seq in Hk. apply Nat.eqb_eq in Hs.
      destruct (k =? i)%nat eqn:Hki; [|reflexivity]. apply Nat.eqb_eq in Hki. lia.
  - apply Nat.eqb_neq in Hs. rewrite IH by lia. ring.
Qed.

Lemma Qprod_ext {X} (f g : X -> Q) (l : list X) :
  (forall x, x ∈ l -> f x == g x) -> Qprod (map f l) == Qprod (map g l).
Proof.
  induction l as [|x l IH]; intros Hfg; simpl; [reflexivity|].
  rewrite (Hfg x) by apply list_elem_of_here.
  rewrite IH; [reflexivity|]. intros y Hy. apply Hfg. by apply list_elem_of_further.
Qed.

Lemma Qprod_nonneg {X} (f : X -> Q) (l : list X) :
  (forall x, x ∈ l -> 0 <= f x) -> 0 <= Qprod (map f l).
Proof.
  induction l as [|x l IH]; intros Hf; simpl; [lra|].
  apply Qmult_le_0_compat.
  - apply Hf. constructor.
  - apply IH. intros y Hy. apply Hf. by constructor.
Qed.

Lemma Qprod_pos {X} (f : X -> Q) (l : list X) :
  (forall x, x ∈ l -> 0 < f x) -> 0 < Qprod (map f l).
Proof.
  induction l as [|x l IH]; intros Hf; simpl; [lra|].
  apply Qmult_lt_0_compat.
  - apply Hf. constructor.
  - apply IH. intros y Hy. apply Hf. by constructor.
Qed.

Lemma Qprod_factor_pos {X} (f : X -> Q) (l : list X) :
  (forall x, x ∈ l -> 0 <= f x) -> 0 < Qprod (map f l) ->
  forall x, x ∈ l -> 0 < f x.
Proof.
  induction l as [|y l IH]; intros Hf Hpos x Hx; [by apply elem_of_nil in Hx|].
  simpl in Hpos.
  assert (0 <= f y) as Hy by (apply Hf; constructor).
  assert (0 <= Qprod (map f l)) as Hl
    by (apply Qprod_nonneg; intros z Hz; apply Hf; by constructor).
  assert (0 < f y /\ 0 < Qprod (map f l)) as [Hy' Hl'] by (split; nra).
  apply elem_of_cons in Hx as [->|Hx]; [done|].
  apply IH; [|done|done]. intros z Hz. apply Hf. by constructor.
Qed.

Lemma Qprod_scale {X} (c : Q) (f : X -> Q) (l : list X) :
  Qprod (map (fun x => c * f x) l)
  == Qprod (map (fun _ => c) l) * Qprod (map f l).
Proof. induction l as [|x l IH]; simpl; [ring|]. rewrite IH. ring. Qed.

Lemma Qprod_replace (x : Q) (f : nat -> Q) (i s n : nat) :
  (s <= i < s + n)%nat ->
  Qprod (map (fun k => if (k =? i)%nat then x else f k) (seq s n)) * f i
  == x * Qprod (map f (seq s n)).
Proof.
  revert s. induction n as [|n IH]; intros s Hi; [lia|]. simpl.
  destruct (s =? i)%nat eqn:Hs.
  - apply Nat.eqb_eq in Hs. subst s.
    rewrite (Qprod_ext _ f); [ring|].
    intros k Hk. apply elem_of_seq in Hk.
    destruct (k =? i)%nat eqn:Hki; [|reflexivity]. apply Nat.eqb_eq in Hki. lia.
  - apply Nat.eqb_neq in Hs.
    rewrite <- Qmult_assoc, IH by lia. ring.
Qed.

(** Bernoulli's inequality for a product of equal factors. *)
Lemma Qprod_bernoulli {X} (t : Q) (l : list X) :
  0 <= t <= 1 ->
  1 - inject_Z (Z.of_nat (length l)) * t <= Qprod (map (fun _ => 1 - t) l).
Proof.
  intros Ht. induction l as [|x l IH]; simpl length; simpl map; simpl Qprod.
  - change (1 - 0 * t <= 1). lra.
  - rewrite Nat2Z.inj_succ. unfold Z.succ. rewrite inject_Z_plus.
    set (k := inject_Z (Z.of_nat (length l))) in *.
    assert (0 <= k) as Hk.
    { unfold k. change 0 with (inject_Z 0). rewrite <- Zle_Qle. lia. }
    set (p := Qprod (map (fun _ => 1 - t) l)) in *.
    change (inject_Z 1) with 1.
    assert (0 <= k * (t * t)) as Hktt
      by (apply Qmult_le_0_compat; [done|apply Qmult_le_0_compat; lra]).
    assert (0 <= (1 - t) * (p - (1 - k * t))) as Hstep
      by (apply Qmult_le_0_compat; lra).
    lra.
Qed.

(** *** A max-product allocation is proportional *)

Lemma utility_Q (z : AllocationMatrix Q) (v : ValuationMatrix Q) i :
  utility z v i
  = Qsum (map (fun j => entry 0 z i j * entry 0 v i j) (seq 0 (num_of_objects v))).
Proof. reflexivity. Qed.

Lemma column_sum_entries (z : AllocationMatrix Q) j :
  column_sum z j == Qsum (map (fun i => entry 0 z i j) (seq 0 (length z))).
Proof.
  unfold column_sum.
  replace (map (fun row => nth j row 0) z)
    with (map (fun i => entry 0 z i j) (seq 0 (length z))); [reflexivity|].
  apply list_eq. intros i. rewrite !list_lookup_fmap.
  destruct (decide (i < length z)%nat) as [Hi|Hi].
  - rewrite lookup_seq_lt by done. simpl.
    destruct (lookup_lt_is_Some_2 z i Hi) as [row Hrow]. rewrite Hrow. simpl.
    unfold entry. by rewrite (nth_lookup_Some _ _ _ _ Hrow).
  - rewrite lookup_seq_ge, lookup_ge_None_2 by lia. done.
Qed.

Lemma utility_mk_matrix (v : ValuationMatrix Q) (f : nat -> nat -> Q) i :
  (i < num_of_agents v)%nat ->
  utility (mk_matrix (num_of_agents v) (num_of_objects v) f) v i
  == Qsum (map (fun j => f i j * entry 0 v i j) (seq 0 (num_of_objects v))).
Proof.
  intros Hi. rewrite utility_Q. apply Qsum_ext. intros j Hj.
  apply elem_of_seq in Hj. rewrite entry_mk_matrix.
  rewrite (proj2 (Nat.ltb_lt _ _) Hi).
  destruct Hj as [_ Hj]. simpl in Hj. rewrite (proj2 (Nat.ltb_lt _ _) Hj).
  reflexivity.
Qed.

Lemma mk_matrix_allocation (v : ValuationMatrix Q) (f : nat -> nat -> Q) :
  (forall i j, 0 <= f i j) ->
  (forall j, (j < num_of_objects v)%nat ->
     Qsum (map (fun i => f i j) (seq 0 (num_of_agents v))) == 1) ->
  is_allocation v (mk_matrix (num_of_agents v) (num_of_objects v) f).
Proof.
  intros Hf Hcol. split; [|split].
  - unfold mk_matrix. by rewrite length_map, length_seq.
  - intros i j. rewrite entry_mk_matrix.
    destruct (_ && _); [apply Hf | lra].
  - intros j Hj. rewrite <- (Hcol j Hj). unfold column_sum, mk_matrix.
    rewrite map_map. apply Qsum_ext. intros i _. rewrite nth_map_seq.
    by rewrite (proj2 (Nat.ltb_lt _ _) Hj).
Qed.

Section Proportional.
Context (v : ValuationMatrix Q) (z : AllocationMatrix Q).
Local Abbreviation n := (num_of_agents v).
Local Abbreviation m := (num_of_objects v).
Local Abbreviation N := (inject_Z (Z.of_nat (num_of_agents v))).

Hypothesis v_nonneg : forall i j, 0 <= entry 0 v i j.
Hypothesis v_pos : forall i, (i < n)%nat -> 0 < total_value v i.
Hypothesis z_max : is_max_product v z.

Lemma utility_nonneg k : 0 <= utility z v k.
Proof.
  rewrite utility_Q. apply Qsum_nonneg. intros j _.
  apply Qmult_le_0_compat; [|apply v_nonneg].
  destruct z_max as [(_ & Hz & _) _]. apply Hz.
Qed.

Lemma agents_pos i : (i < n)%nat -> 0 < N.
Proof.
  intros Hi. change 0 with (inject_Z 0). rewrite <- Zlt_Qlt. lia.
Qed.

(** Sharing every item equally gives every agent a positive utility, so
    the maximal product is positive. *)
Lemma max_product_positive i : (i < n)%nat -> 0 < Qprod (utility_profile z v).
Proof.
  intros Hi. pose proof (agents_pos i Hi) as HN.
  destruct z_max as [_ Hmax].
  eapply Qlt_le_trans; [|apply (Hmax (mk_matrix n m (fun _ _ => 1 / N)))].
  - unfold utility_profile, agents. apply Qprod_pos. intros k Hk.
    apply elem_of_seq in Hk. rewrite utility_mk_matrix by lia.
    rewrite Qsum_scale. fold (objects v). fold (total_value v k).
    apply Qmult_lt_0_compat; [|apply v_pos; lia].
    apply Qlt_shift_div_l; lra.
  - apply mk_matrix_allocation.
    + intros _ _. apply Qlt_le_weak, Qlt_shift_div_l; lra.
    + intros j _. rewrite Qsum_const, length_seq. field. lra.
Qed.

Lemma utility_positive i k : (i < n)%nat -> (k < n)%nat -> 0 < utility z v k.
Proof.
  intros Hi Hk.
  apply (Qprod_factor_pos (fun k => utility z v k) (seq 0 n)).
  - intros x _. apply utility_nonneg.
  - apply (max_product_positive i Hi).
  - apply elem_of_seq. lia.
Qed.

(** Moving a fraction [t] of every item to agent [i]. *)
Lemma shift_towards_agent i t :
  (i < n)%nat -> 0 < t -> t < 1 ->
  (((1 - t) * utility z v i + t * total_value v i)
     * (1 - N * t) <= (1 - t) * utility z v i).
Proof.
  intros Hi Ht0 Ht1.
  set (f := fun k j => (1 - t) * entry 0 z k j + (if (k =? i)%nat then t else 0)).
  destruct z_max as [(Hlen & Hz & Hcols) Hmax].
  assert (is_allocation v (mk_matrix n m f)) as Halloc.
  { apply mk_matrix_allocation.
    - intros k j. unfold f. pose proof (Hz k j).
      assert (0 <= (1 - t) * entry 0 z k j) by (apply Qmult_le_0_compat; lra).
      destruct (k =? i)%nat; lra.
    - intros j Hj. unfold f. rewrite Qsum_plus, Qsum_scale.
      rewrite Qsum_indicator by lia.
      rewrite <- Hlen at 1. rewrite <- column_sum_entries, Hcols by done. ring. }
  pose proof (Hmax _ Halloc) as Hle.
  set (U := fun k => utility z v k).
  set (x := (1 - t) * U i + t * total_value v i).
  assert (Qprod (utility_profile (mk_matrix n m f) v)
          == Qprod (map (fun k => if (k =? i)%nat then x else (1 - t) * U k)
                        (seq 0 n))) as Hprod.
  { unfold utility_profile, agents. apply Qprod_ext. intros k Hk.
    apply elem_of_seq in Hk. rewrite utility_mk_matrix by lia.
    unfold f, x, U. rewrite (Qsum_ext _
      (fun j => (1 - t) * (entry 0 z k j * entry 0 v k j)
                + (if (k =? i)%nat then t else 0) * entry 0 v k j))
      by (intros; ring).
    rewrite Qsum_plus, !Qsum_scale. rewrite <- utility_Q.
    fold (objects v). fold (total_value v k).
    destruct (k =? i)%nat eqn:Hki.
    - apply Nat.eqb_eq in Hki. subst k. reflexivity.
    - ring. }
  rewrite Hprod in Hle. clear Hprod.
  pose proof (Qprod_replace x (fun k => (1 - t) * U k) i 0 n ltac:(lia)) as Hrep.
  simpl in Hrep. rewrite Qprod_scale in Hrep.
  pose proof (Qprod_bernoulli t (seq 0 n) ltac:(lra)) as Hbern.
  rewrite length_seq in Hbern.
  change (Qprod (map U (seq 0 n))) with (Qprod (utility_profile z v)) in Hrep.
  pose proof (max_product_positive i Hi) as Hpos.
  pose proof (utility_positive i i Hi Hi) as HUi. fold (U i) in HUi |- *.
  assert (0 < total_value v i) as HV by (by apply v_pos).
  set (A := Qprod (map (fun k => if (k =? i)%nat then x else (1 - t) * U k) (seq 0 n))) in *.
  set (Pz := Qprod (utility_profile z v)) in *.
  set (Pc := Qprod (map (fun _ => 1 - t) (seq 0 n))) in *.
  assert (0 < x) as Hx by (unfold x; nra).
  fold x.
  (* x * Pc * Pz = A * ((1 - t) * U i) <= Pz * ((1 - t) * U i) *)
  assert (x * Pc <= (1 - t) * U i) as Hkey.
  { assert (0 < (1 - t) * U i) as Hc by nra.
    assert (A * ((1 - t) * U i) <= Pz * ((1 - t) * U i)) as H1
      by (apply Qmult_le_compat_r; lra).
    rewrite Hrep in H1.
    apply (Qmult_le_r _ _ Pz Hpos). lra. }
  assert (x * (1 - N * t) <= x * Pc) as Hb
    by (apply Qmult_le_l; [done|lra]).
  lra.
Qed.

(** Every agent of a max-product allocation receives at least its
    proportional share: n times its utility covers the whole value. *)
Lemma max_product_proportional i :
  (i < n)%nat -> total_value v i <= N * utility z v i.
Proof.
  intros Hi. apply Qnot_lt_le. intros Hlt.
  pose proof (agents_pos i Hi) as HN.
  pose proof (utility_positive i i Hi Hi) as HU.
  assert (0 < total_value v i) as HV by (by apply v_pos).
  set (U := utility z v i) in *. set (V := total_value v i) in *.
  assert (1 <= N) as HN1.
  { change 1 with (inject_Z 1). rewrite <- Zle_Qle. lia. }
  set (t := (V - N * U) / (2 * N * V)).
  assert (2 * N * V * t == V - N * U) as Ht by (unfold t; field; lra).
  assert (0 < N * V) as HNV by nra.
  assert (0 < t) as Ht0 by (unfold t; apply Qlt_shift_div_l; lra).
  assert (t < 1) as Ht1.
  { unfold t. apply Qlt_shift_div_r; [lra|]. nra. }
  pose proof (shift_towards_agent i t Hi Ht0 Ht1) as Hshift.
  fold U V in Hshift.
  (* the shift gives t * (V - N U - N t (V - U)) <= 0 *)
  assert (t * (V - N * U - N * t * (V - U)) <= 0) as H1 by lra.
  assert (V - N * U <= N * t * (V - U)) as H2 by nra.
  nra.
Qed.
End Proportional.

(** *** The doctest fixtures *)

Import Scenario.

Lemma v1_nonneg i j : 0 <= entry 0 v1 i j.
Proof.
  unfold entry, v1.
  do 3 (destruct i as [|i]; [do 4 (destruct j as [|j]; [by vm_compute|]);
                              destruct j; by vm_compute|]).
  destruct i, j; by vm_compute.
Qed.

Lemma v1_pos i : (i < num_of_agents v1)%nat -> 0 < total_value v1 i.
Proof.
  simpl. intros Hi.
  do 3 (destruct i as [|i]; [by vm_compute|]). lia.
Qed.

(** With thresholds of at least 0.99 times the proportional shares of
    agents 0 and 2, the graph that leaves these two agents only item 3 has
    no solution. *)
Lemma g_infeasible_no_solution (th : list Q) (tol : Q) :
  tol <= 1 # 100 -> 33 # 10 <= nth 0 th 0 -> 99 # 10 <= nth 2 th 0 ->
  infeasible tol (feasibility_program v1 th g_infeasible).
Proof.
  intros Htol Hth0 Hth2 sol Hall.
  pose proof (program_columns _ _ _ _ _ Hall 3%nat ltac:(vm_compute; lia)) as Hcol.
  pose proof (program_thresholds _ _ _ _ _ Hall 0%nat ltac:(vm_compute; lia)) as H0.
  pose proof (program_thresholds _ _ _ _ _ Hall 2%nat ltac:(vm_compute; lia)) as H2.
  pose proof (program_shares _ _ _ _ _ Hall 1%nat 3%nat
                ltac:(vm_compute; lia) ltac:(vm_compute; lia) eq_refl) as H13.
  apply Qabs_Qle_condition in Hcol as [_ Hcol].
  change (1 * sol (0, 3)%nat + (1 * sol (1, 3)%nat + (1 * sol (2, 3)%nat + 0)) - 1
          <= tol) in Hcol.
  change (nth 0 th 0 - tol <= 4 * sol (0, 3)%nat + 0) in H0.
  change (nth 2 th 0 - tol <= 6 * sol (2, 3)%nat + 0) in H2.
  lra.
Qed.

Lemma Qsquare_nonneg (x : Q) : 0 <= x * x.
Proof.
  destruct (Qlt_le_dec x 0) as [Hx|Hx].
  - assert (x * x == (- x) * (- x)) as Heq by ring.
    rewrite Heq. apply Qmult_le_0_compat; lra.
  - by apply Qmult_le_0_compat.
Qed.

Lemma Qsquare_zero (x : Q) : x * x <= 0 -> x == 0.
Proof.
  intros Hx. pose proof (Qsquare_nonneg x) as Hnn.
  assert (x * x == 0) as Hz by lra.
  destruct (Qmult_integral _ _ Hz); done.
Qed.

(** The inequality of the arithmetic and the geometric mean for three
    numbers, with what is left over when they differ. *)
Lemma amgm3_gap (a b c : Q) :
  0 <= a -> 0 <= b -> 0 <= c ->
  27 * (a * b * c)
  + (1 # 2) * ((a + b + c)
               * ((a - b) * (a - b) + (b - c) * (b - c) + (c - a) * (c - a)))
  <= (a + b + c) * (a + b + c) * (a + b + c).
Proof.
  intros Ha Hb Hc.
  pose proof (Qsquare_nonneg (a - b)) as Hab.
  pose proof (Qsquare_nonneg (b - c)) as Hbc.
  pose proof (Qsquare_nonneg (c - a)) as Hca.
  assert (0 <= a * ((b - c) * (b - c))) as Ea by (by apply Qmult_le_0_compat).
  assert (0 <= b * ((c - a) * (c - a))) as Eb by (by apply Qmult_le_0_compat).
  assert (0 <= c * ((a - b) * (a - b))) as Ec by (by apply Qmult_le_0_compat).
  assert ((a + b + c) * (a + b + c) * (a + b + c) - 27 * (a * b * c)
          - (1 # 2) * ((a + b + c)
               * ((a - b) * (a - b) + (b - c) * (b - c) + (c - a) * (c - a)))
          == 3 * (a * ((b - c) * (b - c)) + b * ((c - a) * (c - a))
                  + c * ((a - b) * (a - b)))) as Hid by ring.
  lra.
Qed.

Lemma amgm3 (a b c : Q) :
  0 <= a -> 0 <= b -> 0 <= c -> a + b + c == 3 -> a * b * c <= 1.
Proof.
  intros Ha Hb Hc Hsum.
  pose proof (amgm3_gap a b c Ha Hb Hc) as Hgap.
  pose proof (Qsquare_nonneg (a - b)) as Hab.
  pose proof (Qsquare_nonneg (b - c)) as Hbc.
  pose proof (Qsquare_nonneg (c - a)) as Hca.
  assert (0 <= (a + b + c)
               * ((a - b) * (a - b) + (b - c) * (b - c) + (c - a) * (c - a)))
    as Hnn by (apply Qmult_le_0_compat; lra).
  assert ((a + b + c) * (a + b + c) * (a + b + c) == 27) as H27
    by (rewrite Hsum; reflexivity).
  lra.
Qed.

(** The case of equality: three numbers of sum at most 3 and product at
    least 1 are all 1. *)
Lemma amgm3_eq (a b c : Q) :
  0 <= a -> 0 <= b -> 0 <= c -> a + b + c <= 3 -> 1 <= a * b * c ->
  a == 1 /\ b == 1 /\ c == 1.
Proof.
  intros Ha Hb Hc Hsum Hprod.
  pose proof (amgm3_gap a b c Ha Hb Hc) as Hgap.
  pose proof (Qsquare_nonneg (a - b)) as Hab.
  pose proof (Qsquare_nonneg (b - c)) as Hbc.
  pose proof (Qsquare_nonneg (c - a)) as Hca.
  set (S := a + b + c) in *.
  set (sq := (a - b) * (a - b) + (b - c) * (b - c) + (c - a) * (c - a)) in *.
  assert (0 <= S) as HS0 by (unfold S; lra).
  assert (0 <= S * sq) as HSsq by (apply Qmult_le_0_compat; unfold sq; lra).
  assert (27 <= S * S * S) as Hcube by lra.
  assert (S == 3) as HS.
  { apply Qle_antisym; [done|]. apply Qnot_lt_le. intros Hlt.
    assert (S * S <= 9) by nra.
    assert (S * S * S < 27) by nra. lra. }
  assert (S * S * S == 27) as Hc27 by (rewrite HS; reflexivity).
  assert (sq <= 0) as Hsq by nra.
  assert (a - b == 0) as Eab by (apply Qsquare_zero; unfold sq in Hsq; lra).
  assert (b - c == 0) as Ebc by (apply Qsquare_zero; unfold sq in Hsq; lra).
  unfold S in HS. repeat split; lra.
Qed.

Lemma prod3_le (a b c a' b' c' : Q) :
  0 <= a <= a' -> 0 <= b <= b' -> 0 <= c <= c' -> a * b * c <= a' * b' * c'.
Proof.
  intros Ha Hb Hc.
  assert (a * b <= a' * b') by (apply Qmult_le_compat_nonneg; lra).
  assert (0 <= a * b) by (apply Qmult_le_0_compat; lra).
  apply Qmult_le_compat_nonneg; lra.
Qed.

Lemma v1_product (z : AllocationMatrix Q) :
  Qprod (utility_profile z v1) == utility z v1 0 * utility z v1 1 * utility z v1 2.
Proof.
  unfold utility_profile, agents. simpl map. unfold Qprod. simpl fold_right. ring.
Qed.

(** At the prices 70/123, 80/123, 96/123 and 1, whose sum is 3, no item
    gives agent 0, 1 or 2 more than 4, 123/16 or 123/10 of value for one
    unit of money: an agent's utility is bounded by what its bundle
    costs. *)
Lemma v1_price_bound (z : AllocationMatrix Q) :
  is_allocation v1 z ->
  exists s0 s1 s2,
    (0 <= s0 /\ 0 <= s1 /\ 0 <= s2) /\ s0 + s1 + s2 == 3
    /\ 0 <= utility z v1 0 <= 4 * s0
    /\ 0 <= utility z v1 1 <= (123 # 16) * s1
    /\ 0 <= utility z v1 2 <= (123 # 10) * s2.
Proof.
  intros (Hlen & Hz & Hcols).
  pose proof (Hcols 0%nat ltac:(vm_compute; lia)) as Hc0.
  pose proof (Hcols 1%nat ltac:(vm_compute; lia)) as Hc1.
  pose proof (Hcols 2%nat ltac:(vm_compute; lia)) as Hc2.
  pose proof (Hcols 3%nat ltac:(vm_compute; lia)) as Hc3.
  rewrite column_sum_entries, Hlen in Hc0, Hc1, Hc2, Hc3.
  cbn in Hc0, Hc1, Hc2, Hc3.
  pose proof (Hz 0 0)%nat. pose proof (Hz 0 1)%nat.
  pose proof (Hz 0 2)%nat. pose proof (Hz 0 3)%nat.
  pose proof (Hz 1 0)%nat. pose proof (Hz 1 1)%nat.
  pose proof (Hz 1 2)%nat. pose proof (Hz 1 3)%nat.
  pose proof (Hz 2 0)%nat. pose proof (Hz 2 1)%nat.
  pose proof (Hz 2 2)%nat. pose proof (Hz 2 3)%nat.
  pose (s := fun i : nat =>
         (70 # 123) * entry 0 z i 0 + (80 # 123) * entry 0 z i 1
         + (96 # 123) * entry 0 z i 2 + entry 0 z i 3).
  exists (s 0%nat), (s 1%nat), (s 2%nat).
  rewrite !utility_Q. cbn [num_of_objects v1 nth length seq map Qsum fold_right].
  change (entry 0 v1 0 0) with 1. change (entry 0 v1 0 1) with 2.
  change (entry 0 v1 0 2) with 3. change (entry 0 v1 0 3) with 4.
  change (entry 0 v1 1 0) with 4. change (entry 0 v1 1 1) with 5.
  change (entry 0 v1 1 2) with 6. change (entry 0 v1 1 3) with 5.
  change (entry 0 v1 2 0) with 7. change (entry 0 v1 2 1) with 8.
  change (entry 0 v1 2 2) with 9. change (entry 0 v1 2 3) with 6.
  unfold s. repeat split; lra.
Qed.

(** [mpa1] maximises the product of the utilities over the allocations of
    [v1]. *)
Lemma mpa1_is_max_product : is_max_product v1 mpa1.
Proof.
  split.
  - split; [reflexivity|]. split.
    + intros i j. unfold entry, mpa1.
      do 3 (destruct i as [|i]; [do 4 (destruct j as [|j]; [by vm_compute|]);
                                  destruct j; by vm_compute|]).
      destruct i, j; by vm_compute.
    + intros j Hj. do 4 (destruct j as [|j]; [by vm_compute|]).
      vm_compute in Hj. lia.
  - intros z Hz.
    assert (Qprod (utility_profile mpa1 v1) == 4 * (123 # 16) * (123 # 10)) as Hmax
      by (by vm_compute).
    rewrite Hmax, v1_product. clear Hmax.
    destruct (v1_price_bound z Hz)
      as (s0 & s1 & s2 & (Hs0 & Hs1 & Hs2) & Hsum & Hu0 & Hu1 & Hu2).
    pose proof (prod3_le _ _ _ _ _ _ Hu0 Hu1 Hu2) as Hprod.
    pose proof (amgm3 s0 s1 s2 Hs0 Hs1 Hs2 Hsum) as Hs.
    nra.
Qed.

(** All max-product allocations of [v1] give the agents the same
    utilities. *)
Lemma v1_max_product_utilities (z : AllocationMatrix Q) :
  is_max_product v1 z ->
  utility z v1 0 == 4 /\ utility z v1 1 == 123 # 16 /\ utility z v1 2 == 123 # 10.
Proof.
  intros [Hz Hmax].
  specialize (Hmax mpa1 (proj1 mpa1_is_max_product)).
  assert (Qprod (utility_profile mpa1 v1) == 4 * (123 # 16) * (123 # 10)) as Hopt
    by (by vm_compute).
  rewrite Hopt, v1_product in Hmax. clear Hopt.
  destruct (v1_price_bound z Hz)
    as (s0 & s1 & s2 & (Hs0 & Hs1 & Hs2) & Hsum & Hu0 & Hu1 & Hu2).
  set (u0 := utility z v1 0) in *. set (u1 := utility z v1 1) in *.
  set (u2 := utility z v1 2) in *.
  destruct (amgm3_eq ((1 # 4) * u0) ((16 # 123) * u1) ((10 # 123) * u2))
    as (E0 & E1 & E2); lra.
Qed.

(** The constraints of a program on three agents and four items, spelled
    out for a given graph. *)
Ltac in_range := vm_compute; lia.

Ltac column_fact Hall j :=
  let H := fresh "Hcol" in
  pose proof (program_columns _ _ _ _ _ Hall j ltac:(in_range)) as H;
  apply Qabs_Qle_condition in H; cbn in H.

Ltac threshold_fact Hall i :=
  let H := fresh "Hthr" in
  pose proof (program_thresholds _ _ _ _ _ Hall i ltac:(in_range)) as H; cbn in H.

Ltac share_fact Hall i j :=
  try (let H := fresh "Hshare" in
       pose proof (program_shares _ _ _ _ _ Hall i j ltac:(in_range) ltac:(in_range)
                     eq_refl) as H).

Ltac program_facts Hall :=
  column_fact Hall 0%nat; column_fact Hall 1%nat;
  column_fact Hall 2%nat; column_fact Hall 3%nat;
  threshold_fact Hall 0%nat; threshold_fact Hall 1%nat; threshold_fact Hall 2%nat;
  share_fact Hall 0%nat 0%nat; share_fact Hall 0%nat 1%nat;
  share_fact Hall 0%nat 2%nat; share_fact Hall 0%nat 3%nat;
  share_fact Hall 1%nat 0%nat; share_fact Hall 1%nat 1%nat;
  share_fact Hall 1%nat 2%nat; share_fact Hall 1%nat 3%nat;
  share_fact Hall 2%nat 0%nat; share_fact Hall 2%nat 1%nat;
  share_fact Hall 2%nat 2%nat; share_fact Hall 2%nat 3%nat.

(** With thresholds of 0.99 times the max-product utilities, none of the
    six graphs has a solution. *)
Lemma none_graphs_infeasible (th : list Q) (tol : Q) :
  tol <= 1 # 100 ->
  396 # 100 <= nth 0 th 0 -> 7610625 # 1000000 <= nth 1 th 0 ->
  12177 # 1000 <= nth 2 th 0 ->
  Forall (fun g => infeasible tol (feasibility_program v1 th g)) none_graphs.
Proof.
  intros Htol H0 H1 H2.
  unfold none_graphs. repeat apply List.Forall_cons; [..|apply List.Forall_nil];
    intros sol Hall; program_facts Hall; lra.
Qed.

Lemma thresholds_of_init (mpa : ValuationMatrix Q -> AllocationMatrix Q) (t : Q) i :
  (i < num_of_agents v1)%nat ->
  nth i (thresholds (snd (__init__ mpa v1 t))) 0 = utility (mpa v1) v1 i * (1 - t).
Proof.
  intros Hi. do 3 (destruct i as [|i]; [reflexivity|]). vm_compute in Hi. lia.
Qed.

(** C2: for the valuations [v1] with the default tolerance, the graph
    [[0,0,0,1],[1,1,1,1],[0,0,0,1]] has no solution and
    [find_allocation_for_graph] returns [None] on it.  On every graph, a
    program reported infeasible or unbounded gives [None]; when the program
    has no solution the call never returns a matrix, and it returns [None]
    unless the solver itself fails. *)
Theorem infeasible_graph_returns_None (solver : Solver) (tol : Q)
    (mpa : ValuationMatrix Q -> AllocationMatrix Q) :
  solver_sound solver tol -> tol <= 1 # 100 -> is_max_product v1 (mpa v1) ->
  let self := snd (__init__ mpa v1 default_tolerance) in
  infeasible tol (feasibility_program v1 (thresholds self) g_infeasible)
  /\ (solver_answers solver (feasibility_program v1 (thresholds self) g_infeasible) ->
      find_allocation_for_graph solver self g_infeasible = Returned None)
  /\ (forall (p : FairThresholdAllocationProblem Q) (g : ConsumptionGraph),
        let P := feasibility_program (valuation p) (thresholds p) g in
        (fst (solver P) = Infeasible \/ fst (solver P) = Unbounded ->
         find_allocation_for_graph solver p g = Returned None)
        /\ (infeasible tol P ->
            (forall z, find_allocation_for_graph solver p g <> Returned (Some z))
            /\ (solver_answers solver P ->
                find_allocation_for_graph solver p g = Returned None))).
Proof.
  intros Hsound Htol Hmax self.
  assert (infeasible tol (feasibility_program v1 (thresholds self) g_infeasible))
    as Hinf.
  { pose proof (max_product_proportional v1 (mpa v1) v1_nonneg v1_pos Hmax 0%nat
                  ltac:(vm_compute; lia)) as H0.
    pose proof (max_product_proportional v1 (mpa v1) v1_nonneg v1_pos Hmax 2%nat
                  ltac:(vm_compute; lia)) as H2.
    assert (total_value v1 0 == 10) as Hv0 by (by vm_compute).
    assert (total_value v1 2 == 30) as Hv2 by (by vm_compute).
    rewrite Hv0 in H0. rewrite Hv2 in H2.
    change (inject_Z (Z.of_nat (num_of_agents v1))) with 3 in H0, H2.
    apply g_infeasible_no_solution; [done| |]; unfold self;
      rewrite thresholds_of_init by (vm_compute; lia);
      unfold default_tolerance; simpl literal; lra. }
  split; [done|]. split.
  - intros Hans. by apply (find_allocation_infeasible solver tol self).
  - intros p g P. split; [|intros Hp; split].
    + unfold find_allocation_for_graph. fold P.
      destruct (solver P) as [[] sol]; simpl; intros [|]; by try discriminate.
    + intros z Hz. destruct (find_allocation_optimal solver p g z Hz) as (sol & Hsol & _).
      destruct (Hp sol). by apply Hsound.
    + intros Hans. by apply (find_allocation_infeasible solver tol p).
Qed.

Lemma infeasible_graph_returns_None_witness :
  find_allocation_for_graph (checking_solver (fun _ => 0)) problem1 g_infeasible
  = Returned None.
Proof.
  destruct (infeasible_graph_returns_None
              (checking_solver (fun _ => 0)) 0 (fun _ => mpa1)) as (_ & Hnone & _).
  - apply checking_solver_sound. lra.
  - lra.
  - apply mpa1_is_max_product.
  - apply Hnone, checking_solver_answers.
Defined.



Lemma graph_consistency_witness : entry 0 a_feasible 2 3 = 0.
Proof.
  apply (graph_consistency (checking_solver (shares_of a_feasible))
           problem1 g_feasible a_feasible).
  - by vm_compute.
  - reflexivity.
Defined.

Lemma threshold_satisfaction_witness :
  nth 1 (thresholds problem1) 0 - 0 <= nth 1 (utility_profile a_feasible v1) 0.
Proof.
  apply (threshold_satisfaction (checking_solver (shares_of a_feasible)) 0
           problem1 g_feasible a_feasible).
  - apply checking_solver_sound. lra.
  - by vm_compute.
  - vm_compute. lia.
Defined.

(** C6: [__init__] calls the reference algorithm on the valuations exactly
    once, stores the valuations, the tolerance, and as thresholds the
    reference allocation's utility profile multiplied entry by entry by
    [1 - tolerance]; the class's other method hands the object back
    unchanged. *)
Theorem init_contract {num : Type} `{Number num}
    (mpa : ValuationMatrix num -> AllocationMatrix num)
    (v : list (list num)) (t : num) :
  let events := fst (__init__ mpa v t) in
  let self := snd (__init__ mpa v t) in
  valuation self = v
  /\ tolerance self = t
  /\ thresholds self
     = map (fun u => mul u (sub (literal 1) t)) (utility_profile (mpa v) v)
  /\ List.filter is_max_product_call events = [Max_product_call v]
  /\ snd (fairness_adjective self) = self
  /\ thresholds (snd (fairness_adjective self)) = thresholds self.
Proof. repeat split. Qed.

(** C7: [fairness_adjective] returns the rendering of [1 - tolerance]
    followed by ["-max-product"], which is ["0.99-max-product"] for the
    default tolerance; two objects with the same tolerance get the same
    adjective, and the object is left as it is. *)
Theorem fairness_adjective_contract {num : Type} `{Number num}
    (self : FairMaxProductAllocationProblem num) :
  fairness_adjective self
  = (format (sub (literal 1) (tolerance self)) ++ "-max-product", self)%string
  /\ (forall mpa v t,
        fst (fairness_adjective (snd (__init__ mpa v t)))
        = (format (sub (literal 1) t) ++ "-max-product")%string)
  /\ (forall other : FairMaxProductAllocationProblem num,
        tolerance other = tolerance self ->
        fst (fairness_adjective other) = fst (fairness_adjective self))
  /\ (forall (mpa : ValuationMatrix Q -> AllocationMatrix Q) (v : list (list Q)),
        fst (fairness_adjective (snd (__init__ mpa v default_tolerance)))
        = "0.99-max-product"%string).
Proof.
  repeat split. intros other Hsame. unfold fairness_adjective. simpl.
  by rewrite Hsame.
Qed.

Lemma fairness_adjective_contract_witness :
  fst (fairness_adjective problem2) = fst (fairness_adjective problem1)
  /\ fst (fairness_adjective problem1) = "0.99-max-product"%string.
Proof.
  destruct (fairness_adjective_contract problem1) as (_ & _ & Hsame & Hdefault).
  split.
  - apply Hsame. reflexivity.
  - apply (Hdefault (fun _ => mpa1) v1).
Defined.

(** X9: every [None] of the class's doctest: on each of the six graphs a
    sound solver that answers makes [find_allocation_for_graph] return
    [None], whatever max-product allocation the reference algorithm
    returns. *)
Lemma doctest_none_graphs (solver : Solver) (tol : Q)
    (mpa : ValuationMatrix Q -> AllocationMatrix Q) :
  solver_sound solver tol -> tol <= 1 # 100 -> is_max_product v1 (mpa v1) ->
  (forall P, solver_answers solver P) ->
  Forall (fun g => find_allocation_for_graph solver
                     (snd (__init__ mpa v1 default_tolerance)) g = Returned None)
         none_graphs.
Proof.
  intros Hsound Htol Hmax Hans.
  destruct (v1_max_product_utilities _ Hmax) as (E0 & E1 & E2).
  set (self := snd (__init__ mpa v1 default_tolerance)).
  eapply Forall_impl.
  - apply (none_graphs_infeasible (thresholds self) tol Htol); unfold self;
      rewrite thresholds_of_init by (vm_compute; lia);
      unfold default_tolerance; simpl literal; lra.
  - intros g Hg. by apply (find_allocation_infeasible solver tol self).
Qed.

(** *** What the program leaves to the solver

    The two feasible doctests print the digits that the solver happened to
    return.  The feasibility program itself has several solutions that
    round differently, and a sound solver may return any of them. *)

Lemma amgm2 (a b : Q) : a + b == 2 -> a * b <= 1.
Proof.
  intros Hsum. pose proof (Qsquare_nonneg (a - b)) as Hsq.
  assert ((a + b) * (a + b) == 4) as H4 by (rewrite Hsum; reflexivity).
  nra.
Qed.

Lemma mpa2_is_max_product : is_max_product v2 mpa2.
Proof.
  split.
  - split; [reflexivity|]. split.
    + intros i j. unfold entry, mpa2.
      do 2 (destruct i as [|i]; [do 3 (destruct j as [|j]; [by vm_compute|]);
                                  destruct j; by vm_compute|]).
      destruct i, j; by vm_compute.
    + intros j Hj. do 3 (destruct j as [|j]; [by vm_compute|]).
      vm_compute in Hj. lia.
  - intros z (Hlen & Hz & Hcols).
    assert (Qprod (utility_profile mpa2 v2) == 500 * (100000 # 107)) as Hmax
      by (by vm_compute).
    rewrite Hmax. clear Hmax.
    pose proof (Hcols 0%nat ltac:(vm_compute; lia)) as Hc0.
    pose proof (Hcols 2%nat ltac:(vm_compute; lia)) as Hc2.
    rewrite column_sum_entries, Hlen in Hc0, Hc2.
    unfold utility_profile, agents. simpl num_of_agents. simpl seq. simpl map.
    rewrite !utility_Q. simpl num_of_objects. simpl seq. simpl map.
    simpl in Hc0, Hc2.
    change (entry 0 v2 0 0) with 465. change (entry 0 v2 0 1) with 0.
    change (entry 0 v2 0 2) with 535. change (entry 0 v2 1 0) with 0.
    change (entry 0 v2 1 1) with 0. change (entry 0 v2 1 2) with 1000.
    pose proof (Hz 0 0)%nat. pose proof (Hz 0 2)%nat.
    pose proof (Hz 1 0)%nat. pose proof (Hz 1 2)%nat.
    set (s := fun i : nat =>
           (93 # 100) * entry 0 z i 0 + (107 # 100) * entry 0 z i 2).
    set (u0 := Qsum _). set (u1 := Qsum _).
    assert (0 <= u0 <= 500 * s 0%nat) as Hu0 by (unfold u0, s, Qsum; simpl; lra).
    assert (0 <= u1 <= (100000 # 107) * s 1%nat) as Hu1
      by (unfold u1, s, Qsum; simpl; lra).
    assert (s 0%nat * s 1%nat <= 1) as Hs
      by (apply amgm2; unfold s; unfold Qsum in *; simpl in *; lra).
    assert (0 <= s 0%nat /\ 0 <= s 1%nat) as [Hs0 Hs1] by (unfold s; lra).
    assert (u0 * u1 <= (500 * s 0%nat) * ((100000 # 107) * s 1%nat)) as Hprod
      by (apply Qmult_le_compat_nonneg; lra).
    simpl. nra.
Qed.

(** Two sound solvers, two different answers on the graph of the first
    feasible doctest: 0.33 and 0.67 or 0.34 and 0.66 of item 1. *)
Lemma feasible_graph_answers_differ :
  find_allocation_for_graph (checking_solver (shares_of a_feasible)) problem1 g_feasible
  = Returned (Some a_feasible)
  /\ find_allocation_for_graph (checking_solver (shares_of a_alternative)) problem1
       g_feasible
     = Returned (Some a_alternative).
Proof. split; by vm_compute. Qed.

(** The same on the valuations with exact zeros: 0.07 or 0.06 of item 2
    for agent 0. *)
Lemma delicate_graph_answers_differ :
  find_allocation_for_graph (checking_solver (shares_of b_feasible)) problem2 g2
  = Returned (Some b_feasible)
  /\ find_allocation_for_graph (checking_solver (shares_of b_alternative)) problem2 g2
     = Returned (Some b_alternative).
Proof. split; by vm_compute. Qed.

(** * Further properties *)

Local Open Scope string_scope.
Local Open Scope Z_scope.

(** ** Printing an allocation *)

Lemma string_app_assoc (s1 s2 s3 : string) : (s1 ++ s2) ++ s3 = s1 ++ s2 ++ s3.
Proof.
  induction s1 as [|a s1 IH]; [reflexivity|].
  change (String a ((s1 ++ s2) ++ s3) = String a (s1 ++ s2 ++ s3)). by f_equal.
Qed.

Lemma string_app_nil_r (s : string) : s ++ "" = s.
Proof.
  induction s as [|a s IH]; [reflexivity|].
  change (String a (s ++ "") = String a s). by f_equal.
Qed.

Lemma list_getitem_beyond {X} (l : list X) (i : nat) :
  (length l <= i)%nat ->
  list_getitem l (Z.of_nat i) = Raised (IndexError "list index out of range").
Proof.
  intros Hi. unfold list_getitem.
  destruct (Z.of_nat i <? 0) eqn:Hneg; [lia|]. rewrite Hneg. simpl.
  destruct (Z.of_nat (length l) <=? Z.of_nat i) eqn:Hge; [done|lia].
Qed.

Section Repr.
Context {Agent Item Value : Type}.
Context (lt : Item -> Item -> bool) (str_item : Item -> string)
        (str_agent : Agent -> string) (str_value : Value -> string).

Local Abbreviation lines := (agent_lines lt str_item str_agent str_value).
Local Abbreviation from := (repr_from lt str_item str_agent str_value).

Lemma repr_from_returns (self : Allocation Agent Item Value) rest i acc :
  (i + length rest <= length (Allocations.bundles self))%nat ->
  (i + length rest <= length (Allocations.values self))%nat ->
  from self i rest acc
  = Returned (acc ++ lines rest (drop i (Allocations.bundles self))
                               (drop i (Allocations.values self))).
Proof.
  revert i acc. induction rest as [|a rest IH]; intros i acc Hb Hv.
  - simpl. by rewrite string_app_nil_r.
  - simpl in Hb, Hv.
    destruct (lookup_lt_is_Some_2 (Allocations.bundles self) i ltac:(lia)) as [b Hbi].
    destruct (lookup_lt_is_Some_2 (Allocations.values self) i ltac:(lia)) as [v Hvi].
    cbn [repr_from]. rewrite (list_getitem_in_range _ _ _ Hbi),
      (list_getitem_in_range _ _ _ Hvi). cbn [bind].
    rewrite IH by lia.
    rewrite (drop_S _ _ _ Hbi), (drop_S _ _ _ Hvi). cbn [agent_lines].
    by rewrite string_app_assoc.
Qed.

Lemma repr_from_raises (self : Allocation Agent Item Value) rest i acc :
  (i <= length (Allocations.bundles self))%nat ->
  (i <= length (Allocations.values self))%nat ->
  (length (Allocations.bundles self) < i + length rest
   \/ length (Allocations.values self) < i + length rest)%nat ->
  from self i rest acc = Raised (IndexError "list index out of range").
Proof.
  revert i acc. induction rest as [|a rest IH]; intros i acc Hb Hv Hshort.
  - simpl in Hshort. lia.
  - cbn [repr_from].
    destruct (decide (i < length (Allocations.bundles self))%nat) as [Hib|Hib];
      [|by rewrite list_getitem_beyond by lia].
    destruct (lookup_lt_is_Some_2 _ i Hib) as [b Hbi].
    rewrite (list_getitem_in_range _ _ _ Hbi). cbn [bind].
    destruct (decide (i < length (Allocations.values self))%nat) as [Hiv|Hiv];
      [|by rewrite list_getitem_beyond by lia].
    destruct (lookup_lt_is_Some_2 _ i Hiv) as [v Hvi].
    rewrite (list_getitem_in_range _ _ _ Hvi). cbn [bind].
    apply IH; simpl in Hshort; lia.
Qed.


End Repr.



(** ** Indexing an allocation *)

(** X3: [get_bundle] and the indexing operator follow Python's list
    indexing on [self.bundles]: an index from [-n] to [-1] reads the same
    bundle as that index plus [n], every index from [-n] to [n-1] returns a
    bundle, and any other index raises [IndexError], with a message that
    is Python's to choose. *)
Theorem get_bundle_bounds {Agent Item Value : Type}
    (self : Allocation Agent Item Value) (i : Z) :
  let n := Z.of_nat (length (Allocations.bundles self)) in
  __getitem__ self i = get_bundle self i
  /\ (- n <= i < 0 -> get_bundle self i = get_bundle self (i + n))
  /\ (- n <= i < n -> exists b, get_bundle self i = Returned b)
  /\ (i < - n \/ n <= i ->
      exists msg, get_bundle self i = Raised (IndexError msg)).
Proof.
  intros n. unfold __getitem__, get_bundle, list_getitem. fold n.
  split; [done|]. split; [|split].
  - intros Hi.
    destruct (i <? 0) eqn:H1; [|lia]. destruct (i + n <? 0) eqn:H2; [lia|].
    by rewrite H2.
  - intros Hi.
    set (k := if i <? 0 then i + n else i).
    assert (0 <= k < n) as Hk by (unfold k; destruct (i <? 0) eqn:H1; lia).
    destruct (k <? 0) eqn:H2; [lia|]. destruct (n <=? k) eqn:H3; [lia|]. simpl.
    destruct (lookup_lt_is_Some_2 (Allocations.bundles self) (Z.to_nat k)
                ltac:(unfold n in Hk; lia)) as [b Hb].
    rewrite Hb. eauto.
  - intros Hi.
    set (k := if i <? 0 then i + n else i).
    assert (k < 0 \/ n <= k) as Hk by (unfold k; destruct (i <? 0) eqn:H1; lia).
    destruct (k <? 0) eqn:H2; [simpl; eauto|].
    destruct (n <=? k) eqn:H3; [simpl; eauto|lia].
Qed.

Lemma get_bundle_bounds_witness :
  exists msg,
    get_bundle {| Allocations.num_of_agents := 2; Allocations.agents := [0; 1];
                  Allocations.bundles := [Some [3; 6]; None];
                  Allocations.values := [9; 0] |} (-3)
    = Raised (IndexError msg).
Proof.
  apply (get_bundle_bounds
           {| Allocations.num_of_agents := 2; Allocations.agents := [0; 1];
              Allocations.bundles := [Some [3; 6]; None];
              Allocations.values := [9; 0] |} (-3)).
  simpl. lia.
Defined.

(** ** Reading a bundle back from its rendering *)

Lemma chars_app (s1 s2 : string) : chars (s1 ++ s2) = (chars s1 ++ chars s2)%list.
Proof.
  induction s1 as [|a s1 IH]; [reflexivity|].
  change (a :: chars (s1 ++ s2) = a :: (chars s1 ++ chars s2)%list). by f_equal.
Qed.

Lemma chars_inj (s1 s2 : string) : chars s1 = chars s2 -> s1 = s2.
Proof.
  intros Heq. rewrite <- (String.string_of_list_ascii_of_string s1),
    <- (String.string_of_list_ascii_of_string s2). unfold chars in Heq.
  by rewrite Heq.
Qed.

(** Two texts that agree after their first occurrence of [c] was marked
    agree before and after it. *)
Lemma split_at_first {X} (c : X) (l1 l2 r1 r2 : list X) :
  c ∉ l1 -> c ∉ l2 -> (l1 ++ c :: r1 = l2 ++ c :: r2)%list -> l1 = l2 /\ r1 = r2.
Proof.
  revert l2. induction l1 as [|x l1 IH]; intros [|y l2] H1 H2 Heq; simpl in Heq.
  - by injection Heq as ->.
  - injection Heq as <- _. destruct H2. by left.
  - injection Heq as -> _. destruct H1. by left.
  - injection Heq as -> Heq.
    apply not_elem_of_cons in H1 as [_ H1]. apply not_elem_of_cons in H2 as [_ H2].
    by destruct (IH l2 H1 H2 Heq) as [-> ->].
Qed.

Lemma join_cons (s : string) (l : list string) :
  join "," (s :: l) = match l with [] => s | _ :: _ => s ++ "," ++ join "," l end.
Proof. by destruct l. Qed.

Lemma join_nonempty (s : string) (l : list string) : s <> "" -> join "," (s :: l) <> "".
Proof.
  intros Hs. rewrite join_cons. destruct l; [done|].
  destruct s; [done|]. discriminate.
Qed.

Lemma join_inj (l1 l2 : list string) :
  Forall clean l1 -> Forall clean l2 -> join "," l1 = join "," l2 -> l1 = l2.
Proof.
  intros H1. revert l2. induction H1 as [|s1 l1 [Hs1 Hc1] H1 IH];
    intros l2 H2 Heq.
  - destruct H2 as [|s2 l2 [Hs2 _] _]; [done|].
    symmetry in Heq. by apply join_nonempty in Heq.
  - destruct H2 as [|s2 l2 [Hs2 Hc2] H2]; [by apply join_nonempty in Heq|].
    rewrite !join_cons in Heq.
    destruct l1 as [|t1 l1], l2 as [|t2 l2].
    + by rewrite Heq.
    + destruct Hc1. rewrite Heq, !chars_app, !elem_of_app. right. left. by left.
    + destruct Hc2. rewrite <- Heq, !chars_app, !elem_of_app. right. left. by left.
    + apply (f_equal chars) in Heq. rewrite !chars_app in Heq.
      change (chars ",") with [comma] in Heq. simpl in Heq.
      apply split_at_first in Heq as [Hs Hr]; [|done..].
      apply chars_inj in Hs, Hr. subst s2. f_equal. by apply IH.
Qed.

Lemma braces_inj (s1 s2 : string) : "{" ++ s1 ++ "}" = "{" ++ s2 ++ "}" -> s1 = s2.
Proof.
  intros Heq. injection Heq as Heq. apply (f_equal chars) in Heq.
  rewrite !chars_app in Heq. apply app_inj_tail in Heq as [Heq _].
  by apply chars_inj.
Qed.

Lemma map_inj_on {X Y} (f : X -> Y) (l1 l2 : list X) :
  (forall x y, x ∈ l1 -> y ∈ l2 -> f x = f y -> x = y) ->
  map f l1 = map f l2 -> l1 = l2.
Proof.
  revert l2. induction l1 as [|x l1 IH]; intros [|y l2] Hinj Heq; try done.
  injection Heq as Hxy Heq. f_equal.
  - apply Hinj; [by left|by left|done].
  - apply IH; [|done]. intros a b Ha Hb. apply Hinj; by right.
Qed.

Lemma rendering_determines_bundle {A : Type}
    (lt : A -> A -> bool) (str : A -> string) (b1 b2 : list A) :
  (forall x, x ∈ b1 \/ x ∈ b2 -> clean (str x)) ->
  (forall x y, x ∈ b1 -> y ∈ b2 -> str x = str y -> x = y) ->
  stringify_bundle lt str (Some b1) = stringify_bundle lt str (Some b2) ->
  b1 ≡ₚ b2.
Proof.
  intros Hclean Hinj.
  unfold stringify_bundle. intros Heq. apply braces_inj, join_inj in Heq.
  - apply map_inj_on in Heq.
    + by rewrite <- (sorted_perm lt b1), <- (sorted_perm lt b2), Heq.
    + intros x y Hx Hy. apply Hinj.
      * by rewrite <- (sorted_perm lt b1).
      * by rewrite <- (sorted_perm lt b2).
  - apply Forall_fmap, Forall_forall. intros x Hx. apply Hclean. left.
    by rewrite <- (sorted_perm lt b1).
  - apply Forall_fmap, Forall_forall. intros x Hx. apply Hclean. right.
    by rewrite <- (sorted_perm lt b2).
Qed.

(** X4: when the elements' texts are not empty, hold no comma and are
    different for different elements, the rendering tells the bundle up to
    the order of its elements: two bundles rendered as the same string are
    permutations of each other, and no bundle is rendered as ["None"]. *)
Theorem stringify_bundle_reads_back {A : Type}
    (lt : A -> A -> bool) (str : A -> string) (b1 b2 : list A) :
  (forall x, x ∈ b1 \/ x ∈ b2 -> clean (str x)) ->
  (forall x y, x ∈ b1 -> y ∈ b2 -> str x = str y -> x = y) ->
  stringify_bundle lt str (Some b1) <> stringify_bundle lt str None
  /\ (stringify_bundle lt str (Some b1) = stringify_bundle lt str (Some b2) ->
      b1 ≡ₚ b2).
Proof.
  intros Hclean Hinj. split; [discriminate|].
  by apply rendering_determines_bundle.
Qed.

(** The decimal text of an integer is clean, and different integers have
    different texts. *)
Lemma to_int_proper (n : Z) : Z.to_int n <> Decimal.Pos Decimal.Nil /\ Z.to_int n <> Decimal.Neg Decimal.Nil.
Proof.
  destruct n as [|p|p]; simpl; split; try discriminate;
    intros [= Hnil]; by apply DecimalPos.Unsigned.to_uint_nonnil in Hnil.
Qed.

Lemma str_int_inj (a b : Z) : str_int a = str_int b -> a = b.
Proof.
  unfold str_int. intros Heq. apply (f_equal NilZero.int_of_string) in Heq.
  destruct (to_int_proper a), (to_int_proper b).
  rewrite !NilZero.isi in Heq by done. injection Heq as Heq.
  apply (f_equal Z.of_int) in Heq. by rewrite !DecimalZ.of_to in Heq.
Qed.

Lemma digits_no_comma (d : Decimal.uint) : comma ∉ chars (NilEmpty.string_of_uint d).
Proof.
  induction d; simpl; [apply not_elem_of_nil|..];
    (apply not_elem_of_cons; split; [by vm_compute|done]).
Qed.

Lemma str_int_clean (n : Z) : clean (str_int n).
Proof.
  unfold str_int, clean.
  assert (forall d, NilZero.string_of_uint d <> ""
                    /\ comma ∉ chars (NilZero.string_of_uint d)) as Huint.
  { intros d. split.
    - by destruct d.
    - destruct d; try apply (digits_no_comma (_ _)).
      simpl. apply not_elem_of_cons. split; [by vm_compute|apply not_elem_of_nil]. }
  destruct (Z.to_int n) as [d|d]; simpl.
  - apply Huint.
  - split; [discriminate|].
    apply not_elem_of_cons. split; [by vm_compute|apply Huint].
Qed.

(** X5: two bundles of integers are rendered as the same string exactly
    when they hold the same integers the same number of times. *)
Theorem stringify_int_bundles (b1 b2 : list Z) :
  stringify_bundle Z.ltb str_int (Some b1) = stringify_bundle Z.ltb str_int (Some b2)
  <-> b1 ≡ₚ b2.
Proof.
  split.
  - apply rendering_determines_bundle.
    + intros x _. apply str_int_clean.
    + intros x y _ _. apply str_int_inj.
  - intros Hp. simpl.
    by rewrite (sorted_of_perm Z.ltb Z.ltb_irrefl Zltb_trans Zltb_total b1 b2).
Qed.

Lemma stringify_bundle_reads_back_witness : [6; 3] ≡ₚ [3; 6].
Proof.
  apply (stringify_bundle_reads_back Z.ltb str_int [6; 3] [3; 6]).
  - intros x _. apply str_int_clean.
  - intros x y _ _. apply str_int_inj.
  - reflexivity.
Defined.

Lemma stringify_int_bundles_witness :
  stringify_bundle Z.ltb str_int (Some [5; 2; 5]) = "{2,5,5}".
Proof.
  rewrite (proj2 (stringify_int_bundles [5; 2; 5] [2; 5; 5])); [reflexivity|].
  apply (Permutation_app_comm [5] [2; 5]).
Defined.

Example stringify_bundle_comma_collision :
  stringify_bundle String.ltb id (Some ["a,b"])
  = stringify_bundle String.ltb id (Some ["a"; "b"]).
Proof. reflexivity. Qed.

(** ** The thresholds that [__init__] stores *)

Local Open Scope Q_scope.

Lemma thresholds_nth (mpa : ValuationMatrix Q -> AllocationMatrix Q)
    (v : ValuationMatrix Q) (t : Q) (i : nat) :
  (i < num_of_agents v)%nat ->
  nth i (thresholds (snd (__init__ mpa v t))) 0 = utility (mpa v) v i * (1 - t).
Proof.
  intros Hi. simpl. unfold utility_profile, agents.
  rewrite map_map, nth_map_seq. by rewrite (proj2 (Nat.ltb_lt _ _) Hi).
Qed.

Lemma utility_nonneg_entries (z : AllocationMatrix Q) (v : ValuationMatrix Q) i :
  (forall i j, 0 <= entry 0 v i j) -> (forall i j, 0 <= entry 0 z i j) ->
  0 <= utility z v i.
Proof.
  intros Hv Hz. rewrite utility_Q. apply Qsum_nonneg. intros j _.
  by apply Qmult_le_0_compat.
Qed.

(** X6: with non-negative valuations and shares and tolerances
    [0 <= t1 <= t2 <= 1], every threshold stored for [t2] is non-negative,
    at most the threshold stored for [t1], which is at most the reference
    allocation's utility: a larger tolerance only relaxes the problem. *)
Theorem thresholds_relax (mpa : ValuationMatrix Q -> AllocationMatrix Q)
    (v : ValuationMatrix Q) (t1 t2 : Q) :
  (forall i j, 0 <= entry 0 v i j) -> (forall i j, 0 <= entry 0 (mpa v) i j) ->
  0 <= t1 -> t1 <= t2 -> t2 <= 1 ->
  forall i, (i < num_of_agents v)%nat ->
    0 <= nth i (thresholds (snd (__init__ mpa v t2))) 0
    /\ nth i (thresholds (snd (__init__ mpa v t2))) 0
       <= nth i (thresholds (snd (__init__ mpa v t1))) 0
    /\ nth i (thresholds (snd (__init__ mpa v t1))) 0
       <= nth i (utility_profile (mpa v) v) 0.
Proof.
  intros Hv Hz H0 H12 H1 i Hi. rewrite !thresholds_nth by done.
  unfold utility_profile, agents. rewrite nth_map_seq.
  rewrite (proj2 (Nat.ltb_lt _ _) Hi).
  pose proof (utility_nonneg_entries (mpa v) v i Hv Hz) as HU.
  set (U := utility (mpa v) v i) in *.
  assert (0 <= U * (1 - t2)) by (apply Qmult_le_0_compat; lra).
  assert (0 <= U * (t2 - t1)) by (apply Qmult_le_0_compat; lra).
  assert (0 <= U * t1) by (apply Qmult_le_0_compat; lra).
  repeat split; lra.
Qed.

Lemma thresholds_relax_witness :
  nth 1 (thresholds (snd (__init__ (fun _ => mpa1) v1 (1 # 100)))) 0
  <= nth 1 (thresholds (snd (__init__ (fun _ => mpa1) v1 0))) 0.
Proof.
  apply (thresholds_relax (fun _ => mpa1) v1 0 (1 # 100)).
  - apply v1_nonneg.
  - apply mpa1_is_max_product.
  - lra.
  - lra.
  - lra.
  - vm_compute. lia.
Defined.

Lemma fold_left_Qplus (l : list Q) (a : Q) : fold_left Qplus l a == a + Qsum l.
Proof.
  revert a. induction l as [|x l IH]; intros a; simpl; [ring|].
  rewrite IH. ring.
Qed.

Lemma map_nth_self {X} (d : X) (l : list X) :
  map (fun j => nth j l d) (seq 0 (length l)) = l.
Proof.
  apply list_eq. intros i. rewrite list_lookup_fmap.
  destruct (decide (i < length l)%nat) as [Hi|Hi].
  - rewrite lookup_seq_lt by done. simpl.
    destruct (lookup_lt_is_Some_2 l i Hi) as [x Hx].
    by rewrite Hx, (nth_lookup_Some _ _ _ _ Hx).
  - by rewrite lookup_seq_ge, lookup_ge_None_2 by lia.
Qed.

Lemma proportionality_thresholds_nth (v : ValuationMatrix Q) (i : nat) :
  (i < num_of_agents v)%nat ->
  length (nth i v []) = num_of_objects v ->
  nth i (proportionality_thresholds v) 0
  == total_value v i / inject_Z (Z.of_nat (num_of_agents v)).
Proof.
  intros Hi Hrow. unfold proportionality_thresholds, agents.
  rewrite nth_map_seq, (proj2 (Nat.ltb_lt _ _) Hi).
  unfold py_sum, total_value, objects, entry. simpl.
  rewrite fold_left_Qplus, <- Hrow, map_nth_self.
  unfold Qdiv. ring.
Qed.

(** X7: [__init__] logs the proportionality thresholds next to the
    thresholds it stores.  When the valuations are a non-negative matrix in
    which every agent values something, the reference allocation maximises
    the product of the utilities and [0 <= tolerance <= 1], every stored
    threshold is at least [1 - tolerance] times the logged proportionality
    threshold of the same agent. *)
Theorem thresholds_cover_proportional_share
    (mpa : ValuationMatrix Q -> AllocationMatrix Q)
    (v : ValuationMatrix Q) (t : Q) :
  Forall (fun row => length row = num_of_objects v) v ->
  (forall i j, 0 <= entry 0 v i j) ->
  (forall i, (i < num_of_agents v)%nat -> 0 < total_value v i) ->
  is_max_product v (mpa v) -> 0 <= t -> t <= 1 ->
  Info "The proportionality thresholds are: %s"
       [Vector_arg (proportionality_thresholds v)] ∈ fst (__init__ mpa v t)
  /\ forall i, (i < num_of_agents v)%nat ->
       (1 - t) * nth i (proportionality_thresholds v) 0
       <= nth i (thresholds (snd (__init__ mpa v t))) 0.
Proof.
  intros Hrect Hv Hpos Hmax Ht0 Ht1. split.
  - simpl. do 3 apply list_elem_of_further. apply list_elem_of_here.
  - intros i Hi. rewrite thresholds_nth by done.
    destruct (lookup_lt_is_Some_2 v i Hi) as [row Hrow].
    assert (length (nth i v []) = num_of_objects v) as Hlen.
    { rewrite (nth_lookup_Some _ _ _ _ Hrow).
      rewrite Forall_forall in Hrect. apply Hrect.
      by apply list_elem_of_lookup_2 in Hrow. }
    rewrite proportionality_thresholds_nth by done.
    pose proof (max_product_proportional v (mpa v) Hv Hpos Hmax i Hi) as Hprop.
    pose proof (agents_pos v i Hi) as HN.
    set (N := inject_Z (Z.of_nat (num_of_agents v))) in *.
    set (U := utility (mpa v) v i) in *. set (V := total_value v i) in *.
    assert (V / N <= U) as Hshare by (apply Qle_shift_div_r; lra).
    assert (0 <= (1 - t) * (U - V / N)) by (apply Qmult_le_0_compat; lra).
    lra.
Qed.

Lemma v1_rectangular : Forall (fun row => length row = num_of_objects v1) v1.
Proof. repeat constructor. Qed.

Lemma thresholds_cover_proportional_share_witness :
  (1 - (1 # 100)) * nth 0 (proportionality_thresholds v1) 0
  <= nth 0 (thresholds problem1) 0.
Proof.
  apply (thresholds_cover_proportional_share (fun _ => mpa1) v1 (1 # 100)).
  - apply v1_rectangular.
  - apply v1_nonneg.
  - apply v1_pos.
  - apply mpa1_is_max_product.
  - lra.
  - lra.
  - vm_compute. lia.
Defined.

(** ** The reference allocation as a solution *)

Lemma holds_exactly_check (sol : Var -> Q) (c : Constraint) :
  holds 0 sol c -> check sol c = true.
Proof.
  destruct c as [e b|e b]; cbn [holds check].
  - intros Habs. apply Qabs_Qle_condition in Habs.
    apply Qeq_bool_iff. lra.
  - intros Hle. apply Qle_bool_iff. lra.
Qed.

Section Support.
Context (v : ValuationMatrix Q) (z : AllocationMatrix Q) (g : ConsumptionGraph).
Hypothesis covered : supports g z.

Lemma supported_column j :
  eval (shares_of z) (map (fun x => (1, x)) (edges_of_item g (length z) j))
  == column_sum z j.
Proof.
  rewrite column_sum_entries. unfold eval, edges_of_item, shares_of.
  rewrite !map_map. simpl.
  rewrite (Qsum_filter (fun i => permitted g i j) (fun i => 1 * entry 0 z i j)).
  apply Qsum_ext. intros i _.
  destruct (covered i j) as [-> | Hzero]; [ring|].
  destruct (permitted g i j); [ring|]. by rewrite Hzero.
Qed.

Lemma supported_utility i :
  eval (shares_of z) (map (fun x => (entry 0 v (fst x) (snd x), x))
                          (edges_of_agent g (num_of_objects v) i))
  == utility z v i.
Proof.
  rewrite utility_Q. unfold eval, edges_of_agent, shares_of.
  rewrite !map_map. simpl.
  rewrite (Qsum_filter (fun j => permitted g i j)
             (fun j => entry 0 v i j * entry 0 z i j)).
  apply Qsum_ext. intros j _.
  destruct (covered i j) as [-> | Hzero]; [ring|].
  destruct (permitted g i j); [ring|]. rewrite Hzero. ring.
Qed.
End Support.

(** X8: the thresholds that [__init__] derives from a reference allocation
    are met by that allocation itself.  With non-negative valuations and
    [0 <= tolerance <= 1], on every graph that permits the edges on which
    the reference allocation gives a share, the reference allocation
    satisfies the feasibility program exactly, so a solver that is handed
    it makes [find_allocation_for_graph] return a matrix with the same
    entries. *)
Theorem reference_allocation_is_feasible
    (mpa : ValuationMatrix Q -> AllocationMatrix Q)
    (v : ValuationMatrix Q) (t : Q) (g : ConsumptionGraph) :
  is_allocation v (mpa v) -> (forall i j, 0 <= entry 0 v i j) ->
  0 <= t -> t <= 1 -> supports g (mpa v) ->
  let self := snd (__init__ mpa v t) in
  Forall (holds 0 (shares_of (mpa v)))
         (constraints (feasibility_program v (thresholds self) g))
  /\ exists z, find_allocation_for_graph (checking_solver (shares_of (mpa v))) self g
               = Returned (Some z)
       /\ forall i j, (i < num_of_agents v)%nat -> (j < num_of_objects v)%nat ->
            entry 0 z i j == entry 0 (mpa v) i j.
Proof.
  intros (Hlen & Hz & Hcols) Hv Ht0 Ht1 Hsup self.
  assert (Forall (holds 0 (shares_of (mpa v)))
            (constraints (feasibility_program v (thresholds self) g))) as Hsolves.
  { unfold feasibility_program. cbn [constraints].
    rewrite !Forall_app. repeat split; apply Forall_fmap, Forall_forall.
    - intros j Hj. apply elem_of_seq in Hj. cbn [compose holds].
      rewrite <- Hlen, supported_column, Hcols by (done || lia).
      by vm_compute.
    - intros [i j] _. cbn [compose holds]. unfold eval, Qsum. simpl.
      pose proof (Hz i j). unfold shares_of. simpl. lra.
    - intros i Hi. apply elem_of_seq in Hi. cbn [compose holds].
      rewrite supported_utility by done. unfold self.
      rewrite thresholds_nth by lia.
      pose proof (utility_nonneg_entries (mpa v) v i Hv Hz) as HU.
      assert (0 <= utility (mpa v) v i * t) by (by apply Qmult_le_0_compat).
      lra. }
  split; [done|].
  unfold find_allocation_for_graph, checking_solver.
  change (valuation self) with v.
  assert (forallb (check (shares_of (mpa v)))
            (constraints (feasibility_program v (thresholds self) g)) = true) as ->.
  { apply forallb_forall. intros c Hc. apply holds_exactly_check.
    rewrite Forall_forall in Hsolves. by apply Hsolves, list_elem_of_In. }
  eexists. split; [reflexivity|]. intros i j Hi Hj.
  rewrite entry_allocation_of.
  rewrite (proj2 (Nat.ltb_lt _ _) Hi), (proj2 (Nat.ltb_lt _ _) Hj). simpl.
  destruct (Hsup i j) as [-> | Hzero]; [reflexivity|].
  destruct (permitted g i j); [reflexivity|]. by rewrite Hzero.
Qed.

Lemma reference_allocation_is_feasible_witness :
  exists z, find_allocation_for_graph (checking_solver (shares_of mpa1)) problem1
              g_feasible = Returned (Some z)
    /\ entry 0 z 1 1 == 27 # 80.
Proof.
  destruct (reference_allocation_is_feasible (fun _ => mpa1) v1 (1 # 100) g_feasible)
    as (_ & z & Hz & Hentries).
  - apply mpa1_is_max_product.
  - apply v1_nonneg.
  - lra.
  - lra.
  - intros i j. unfold permitted, entry, g_feasible, mpa1.
    do 3 (destruct i as [|i]; [do 4 (destruct j as [|j]; [by vm_compute; auto|]);
                                destruct j; right; reflexivity|]).
    destruct i, j; right; reflexivity.
  - exists z. split; [exact Hz|]. apply (Hentries 1%nat 1%nat); vm_compute; lia.
Defined.

Lemma doctest_none_graphs_witness :
  Forall (fun g => find_allocation_for_graph (checking_solver (fun _ => 0)) problem1 g
                   = Returned None)
         none_graphs.
Proof.
  apply (doctest_none_graphs (checking_solver (fun _ => 0)) 0 (fun _ => mpa1)).
  - apply checking_solver_sound. lra.
  - lra.
  - apply mpa1_is_max_product.
  - intros P. apply checking_solver_answers.
Defined.

(** ** The feasible doctests *)

Lemma feasible_doctests_forced (th : list Q) (tol : Q) (sol : Var -> Q) :
  tol <= 1 # 1000 ->
  396 # 100 <= nth 0 th 0 -> 7610625 # 1000000 <= nth 1 th 0 ->
  12177 # 1000 <= nth 2 th 0 ->
  Forall (fun gz => Forall (holds tol sol)
                      (constraints (feasibility_program v1 th (fst gz))) ->
                    close (4 # 100) 3 4 (allocation_of 3 4 (fst gz) sol) (snd gz))
         feasible_doctests.
Proof.
  intros Htol H0 H1 H2.
  unfold feasible_doctests. repeat apply List.Forall_cons; [..|apply List.Forall_nil];
    cbn [fst snd]; intros Hall i j Hi Hj; program_facts Hall;
    do 3 (destruct i as [|i]; [do 4 (destruct j as [|j];
      [rewrite entry_allocation_of;
       cbn [Nat.ltb Nat.leb andb permitted entry nth negb Z.eqb];
       apply (proj2 (Qabs_Qle_condition _ _)); split; lra|]); lia|]); lia.
Qed.

(** X10: the two matrices that the doctest prints for feasible graphs on
    [v1] are forced up to 0.04: whatever max-product allocation the
    reference algorithm returns and whatever a solver that is sound up to
    0.001 answers, every entry of the matrix that
    [find_allocation_for_graph] returns is within 0.04 of the printed
    one. *)
Theorem feasible_doctests_within (solver : Solver) (tol : Q)
    (mpa : ValuationMatrix Q -> AllocationMatrix Q) :
  solver_sound solver tol -> tol <= 1 # 1000 -> is_max_product v1 (mpa v1) ->
  Forall (fun gz => forall z,
            find_allocation_for_graph solver
              (snd (__init__ mpa v1 default_tolerance)) (fst gz) = Returned (Some z) ->
            close (4 # 100) 3 4 z (snd gz))
         feasible_doctests.
Proof.
  intros Hsound Htol Hmax.
  destruct (v1_max_product_utilities _ Hmax) as (E0 & E1 & E2).
  set (self := snd (__init__ mpa v1 default_tolerance)).
  apply Forall_forall. intros gz Hgz z Hz.
  destruct (find_allocation_optimal solver self (fst gz) z Hz) as (sol & Hsol & ->).
  pose proof (feasible_doctests_forced (thresholds self) tol sol Htol) as Hforced.
  rewrite Forall_forall in Hforced.
  apply Hforced; [..|done|by apply Hsound];
    unfold self; rewrite thresholds_nth by (vm_compute; lia);
    unfold default_tolerance; simpl literal; lra.
Qed.

Lemma feasible_doctests_within_witness :
  Forall (fun gz => forall z,
            find_allocation_for_graph (checking_solver (shares_of a_alternative))
              problem1 (fst gz) = Returned (Some z) ->
            close (4 # 100) 3 4 z (snd gz))
         feasible_doctests.
Proof.
  apply (feasible_doctests_within (checking_solver (shares_of a_alternative)) 0
           (fun _ => mpa1)).
  - apply checking_solver_sound. lra.
  - lra.
  - apply mpa1_is_max_product.
Defined.

(** The witness is not empty: this solver returns a matrix on both graphs. *)
Example feasible_doctests_answered :
  Forall (fun gz => exists z,
            find_allocation_for_graph (checking_solver (shares_of a_alternative))
              problem1 (fst gz) = Returned (Some z))
         feasible_doctests.
Proof. repeat constructor; eexists; by vm_compute. Qed.

(** *** The valuations with exact zeros *)

Lemma amgm2_eq (a b : Q) :
  0 <= a -> 0 <= b -> a + b <= 2 -> 1 <= a * b -> a == 1 /\ b == 1.
Proof.
  intros Ha Hb Hsum Hprod.
  pose proof (Qsquare_nonneg (a - b)) as Hsq.
  assert ((a + b) * (a + b) == (a - b) * (a - b) + 4 * (a * b)) as Hid by ring.
  assert (4 <= (a + b) * (a + b)) as H4 by lra.
  assert (a + b == 2) as HS.
  { apply Qle_antisym; [done|]. apply Qnot_lt_le. intros Hlt.
    assert ((a + b) * (a + b) < 4) by nra. lra. }
  assert ((a + b) * (a + b) == 4) as HS4 by (rewrite HS; reflexivity).
  assert (a - b == 0) as Eab by (apply Qsquare_zero; lra).
  split; lra.
Qed.

Lemma v2_product (z : AllocationMatrix Q) :
  Qprod (utility_profile z v2) == utility z v2 0 * utility z v2 1.
Proof.
  unfold utility_profile, agents. simpl map. unfold Qprod. simpl fold_right. ring.
Qed.

Lemma v2_price_bound (z : AllocationMatrix Q) :
  is_allocation v2 z ->
  exists s0 s1,
    (0 <= s0 /\ 0 <= s1) /\ s0 + s1 == 2
    /\ 0 <= utility z v2 0 <= 500 * s0
    /\ 0 <= utility z v2 1 <= (100000 # 107) * s1.
Proof.
  intros (Hlen & Hz & Hcols).
  pose proof (Hcols 0%nat ltac:(vm_compute; lia)) as Hc0.
  pose proof (Hcols 2%nat ltac:(vm_compute; lia)) as Hc2.
  rewrite column_sum_entries, Hlen in Hc0, Hc2. cbn in Hc0, Hc2.
  pose proof (Hz 0 0)%nat. pose proof (Hz 0 2)%nat.
  pose proof (Hz 1 0)%nat. pose proof (Hz 1 2)%nat.
  pose (s := fun i : nat =>
         (93 # 100) * entry 0 z i 0 + (107 # 100) * entry 0 z i 2).
  exists (s 0%nat), (s 1%nat).
  rewrite !utility_Q. cbn [num_of_objects v2 nth length seq map Qsum fold_right].
  change (entry 0 v2 0 0) with 465. change (entry 0 v2 0 1) with 0.
  change (entry 0 v2 0 2) with 535. change (entry 0 v2 1 0) with 0.
  change (entry 0 v2 1 1) with 0. change (entry 0 v2 1 2) with 1000.
  unfold s. repeat split; lra.
Qed.

Lemma v2_max_product_utilities (z : AllocationMatrix Q) :
  is_max_product v2 z -> utility z v2 0 == 500 /\ utility z v2 1 == 100000 # 107.
Proof.
  intros [Hz Hmax].
  specialize (Hmax mpa2 (proj1 mpa2_is_max_product)).
  assert (Qprod (utility_profile mpa2 v2) == 500 * (100000 # 107)) as Hopt
    by (by vm_compute).
  rewrite Hopt, v2_product in Hmax. clear Hopt.
  destruct (v2_price_bound z Hz) as (s0 & s1 & (Hs0 & Hs1) & Hsum & Hu0 & Hu1).
  set (u0 := utility z v2 0) in *. set (u1 := utility z v2 1) in *.
  destruct (amgm2_eq ((1 # 500) * u0) ((107 # 100000) * u1)) as (E0 & E1); lra.
Qed.

Ltac program_facts23 Hall :=
  column_fact Hall 0%nat; column_fact Hall 1%nat; column_fact Hall 2%nat;
  threshold_fact Hall 0%nat; threshold_fact Hall 1%nat;
  share_fact Hall 0%nat 0%nat; share_fact Hall 0%nat 1%nat;
  share_fact Hall 0%nat 2%nat; share_fact Hall 1%nat 0%nat;
  share_fact Hall 1%nat 1%nat; share_fact Hall 1%nat 2%nat.

Lemma delicate_doctest_forced (th : list Q) (tol : Q) (sol : Var -> Q) :
  tol <= 1 # 1000 -> 495 <= nth 0 th 0 -> 99000 # 107 <= nth 1 th 0 ->
  Forall (holds tol sol)
         (constraints (feasibility_program v2 th (fst delicate_doctest))) ->
  close (2 # 100) 2 3 (allocation_of 2 3 (fst delicate_doctest) sol)
        (snd delicate_doctest).
Proof.
  intros Htol H0 H1 Hall i j Hi Hj. unfold delicate_doctest in *.
  cbn [fst snd] in *. program_facts23 Hall.
  do 2 (destruct i as [|i]; [do 3 (destruct j as [|j];
    [rewrite entry_allocation_of;
     cbn [Nat.ltb Nat.leb andb permitted entry nth negb Z.eqb];
     apply (proj2 (Qabs_Qle_condition _ _)); split; lra|]); lia|]); lia.
Qed.

(** X11: the matrix that the doctest prints on the valuations with exact
    zeros is forced up to 0.02, in the same sense. *)
Theorem delicate_doctest_within (solver : Solver) (tol : Q)
    (mpa : ValuationMatrix Q -> AllocationMatrix Q) (z : AllocationMatrix Q) :
  solver_sound solver tol -> tol <= 1 # 1000 -> is_max_product v2 (mpa v2) ->
  find_allocation_for_graph solver (snd (__init__ mpa v2 default_tolerance))
    (fst delicate_doctest) = Returned (Some z) ->
  close (2 # 100) 2 3 z (snd delicate_doctest).
Proof.
  intros Hsound Htol Hmax Hz.
  destruct (v2_max_product_utilities _ Hmax) as (E0 & E1).
  set (self := snd (__init__ mpa v2 default_tolerance)) in *.
  destruct (find_allocation_optimal solver self _ z Hz) as (sol & Hsol & ->).
  apply (delicate_doctest_forced (thresholds self) tol sol Htol);
    [..|by apply Hsound];
    unfold self; rewrite thresholds_nth by (vm_compute; lia);
    unfold default_tolerance; simpl literal; lra.
Qed.

Lemma delicate_doctest_within_witness :
  close (2 # 100) 2 3 b_alternative (snd delicate_doctest).
Proof.
  apply (delicate_doctest_within (checking_solver (shares_of b_alternative)) 0
           (fun _ => mpa2)).
  - apply checking_solver_sound. lra.
  - lra.
  - apply mpa2_is_max_product.
  - by vm_compute.
Defined.
